(** * Krita image core: transform-mask static cache, update proxy and
      image signal router

    A shallow embedding of

    - [libs/image/kis_transform_mask.cpp]: [StaticCacheStorage],
      [AccumulatedRectStorage] and the [KisTransformMask] methods
      [startAsyncRegenerationJob], [decorateRect], [changeRect], [needRect];
    - [KisPaintOpPresetUpdateProxy] (postponable, compressed notifications);
    - [libs/image/kis_image_signal_router.cpp]: [emitNotification] and
      [slotNotification].

    Paint devices live in a store and are referred to by shared pointers, so
    that two pointers to one device alias.  Signals, scheduler submissions and
    timer requests are recorded in a trace, in program order.  Collaborators
    whose code is elsewhere (pixel storage, the transform parameters, the safe
    transform) are interfaces.  For the round trip through [changeRect] and
    [needRect] the safe transform is filled in as the specification
    describes it (module [SafeTransform]). *)

From Stdlib Require Import ZArith Bool Lia.
From stdpp Require Import base option list.
From Stdlib Require Import QArith Qround Lqa.

Open Scope Z_scope.

(* ===================================================================== *)
(** * Qt geometry *)
(* ===================================================================== *)

Module Qt.

Record QPoint := mkQPoint { px : Z; py : Z }.

(** [QRect] stores its corners inclusively: [x1, y1, x2, y2]. *)
Record QRect := mkQRect { x1 : Z; y1 : Z; x2 : Z; y2 : Z }.

(** [QRect(x, y, w, h)]. *)
Definition QRect_xywh (x y w h : Z) : QRect :=
  mkQRect x y (x + w - 1) (y + h - 1).

(** [QRect()], the null rectangle. *)
Definition QRect_null : QRect := mkQRect 0 0 (-1) (-1).

(** [QRect::isEmpty()]: [x1 > x2 || y1 > y2]. *)
Definition isEmpty (r : QRect) : bool :=
  (x2 r <? x1 r) || (y2 r <? y1 r).

Definition topLeft (r : QRect) : QPoint := mkQPoint (x1 r) (y1 r).

(** [QRect::adjusted(dx1, dy1, dx2, dy2)]. *)
Definition adjusted (dx1 dy1 dx2 dy2 : Z) (r : QRect) : QRect :=
  mkQRect (x1 r + dx1) (y1 r + dy1) (x2 r + dx2) (y2 r + dy2).

Definition QRect_eqb (a b : QRect) : bool :=
  (x1 a =? x1 b) && (y1 a =? y1 b) && (x2 a =? x2 b) && (y2 a =? y2 b).

End Qt.
Export Qt.

(** Modelled from the spec: [kisGrowRect] of [kis_global.h], which is not
    among the sources at hand.  "grows the result by 1px in every
    direction". *)
Definition kisGrowRect (r : QRect) (d : Z) : QRect :=
  adjusted (- d) (- d) d d r.

(* ===================================================================== *)
(** * Collaborator interfaces *)
(* ===================================================================== *)

(** Pixel storage.  The core uses a paint device only through these
    operations; a device value is the whole state of one device. *)
Class PaintDeviceInterface := {
  KoColorSpace : Type;
  KisDefaultBoundsBaseSP : Type;
  KisPaintDevice : Type;
  (** [*a == *b] on colour spaces *)
  colorSpaceEq : KoColorSpace -> KoColorSpace -> bool;
  (** [new KisPaintDevice(cs)] *)
  newPaintDevice : KoColorSpace -> KisPaintDevice;
  setDefaultBounds : KisDefaultBoundsBaseSP -> KisPaintDevice -> KisPaintDevice;
  colorSpace : KisPaintDevice -> KoColorSpace;
  (** [dev->clear()] *)
  clear : KisPaintDevice -> KisPaintDevice;
  (** [dev->extent()] *)
  extent : KisPaintDevice -> QRect;
  (** [KisPainter::copyAreaOptimized(dstPt, src, dst, srcRect)]: the new
      value of [dst] *)
  copyAreaOptimized :
    QPoint -> KisPaintDevice -> KisPaintDevice -> QRect -> KisPaintDevice;
}.

(** A shared pointer to a paint device: null, or an address in the store. *)
Definition KisPaintDeviceSP := option nat.

(** [bool(sp)] on a shared pointer. *)
Definition sp_bool {A} (p : option A) : bool :=
  match p with Some _ => true | None => false end.

(* ===================================================================== *)
(** * Effects *)
(* ===================================================================== *)

(** What the transform mask does to the outside world, in program order. *)
Inductive Event :=
  | SafeAssertFailed (line : Z)
  | CompressorStart
  | CompressorStop
  | AddSpontaneousJob (extraUpdateRect : QRect)
  | NotifySlotDelayedStaticUpdate
  | NotifyDecorateRectTriggeredStaticImageUpdate
  | BusyProgressIndicatorUpdate.

Section Effects.
Context {PD : PaintDeviceInterface}.

(** The store of paint devices and the trace of events. *)
Record Env := mkEnv {
  heap : list KisPaintDevice;
  trace : list Event
}.

(** A computation reads and updates the environment; [None] is a null or
    dangling pointer dereference, after which nothing is defined. *)
Definition M (A : Type) : Type := Env -> option (A * Env).

Definition ret {A} (a : A) : M A := fun e => Some (a, e).

Definition bind {A B} (m : M A) (k : A -> M B) : M B :=
  fun e => match m e with
           | Some (a, e') => k a e'
           | None => None
           end.

Definition emit (ev : Event) : M unit :=
  fun e => Some (tt, mkEnv (heap e) (trace e ++ [ev])).

(** [KIS_SAFE_ASSERT_RECOVER_NOOP(cond)] and [KIS_ASSERT_RECOVER_NOOP]:
    a failed condition is reported and execution goes on. *)
Definition assert_noop (line : Z) (cond : bool) : M unit :=
  if cond then ret tt else emit (SafeAssertFailed line).

(** [*p] *)
Definition deref (p : KisPaintDeviceSP) : M KisPaintDevice :=
  fun e => match p with
           | Some a => match heap e !! a with
                       | Some d => Some (d, e)
                       | None => None
                       end
           | None => None
           end.

(** Mutation of the device [p] points to. *)
Definition update (p : KisPaintDeviceSP) (f : KisPaintDevice -> KisPaintDevice)
  : M unit :=
  fun e => match p with
           | Some a => match heap e !! a with
                       | Some d => Some (tt, mkEnv (<[a := f d]> (heap e)) (trace e))
                       | None => None
                       end
           | None => None
           end.

(** [new KisPaintDevice(...)]: a fresh address. *)
Definition alloc (d : KisPaintDevice) : M KisPaintDeviceSP :=
  fun e => Some (Some (length (heap e)), mkEnv (heap e ++ [d]) (trace e)).

(** ** Specifications of computations *)

(** Every result of [m] satisfies [Q]. *)
Definition results {A} (m : M A) (Q : A -> Prop) : Prop :=
  forall e a e', m e = Some (a, e') -> Q a.

(** From an environment in [I], [m] returns, stays in [I] and its result
    satisfies [Q]. *)
Definition returns {A} (I : Env -> Prop) (m : M A) (Q : A -> Prop) : Prop :=
  forall e, I e -> exists a e', m e = Some (a, e') /\ I e' /\ Q a.

(** The store has at least [n] cells: the pointers below [n] are live. *)
Definition cells (n : nat) (e : Env) : Prop := (n <= length (heap e))%nat.

Definition live (n : nat) (p : KisPaintDeviceSP) : Prop :=
  exists a, p = Some a /\ (a < n)%nat.

End Effects.

Notation "'let*' x ':=' m 'in' k" := (bind m (fun x => k))
  (at level 10, x name, m at level 100, k at level 200).
Notation "m '>>' k" := (bind m (fun _ => k))
  (at level 100, k at level 200, right associativity).

(** The safe transform, the worker and the 2D algebra the mask calls
    ([kis_safe_transform.h], [kis_perspectivetransform_worker.h],
    [kis_algebra_2d.h]); their arithmetic is floating point and is kept
    opaque. *)
Class TransformInterface {PD : PaintDeviceInterface} := {
  qreal : Type;
  QTransform : Type;
  (** [KisAlgebra2D::blowRect(rect, coeff)] *)
  blowRect : QRect -> qreal -> QRect;
  (** [KisSafeTransform(transform, bounds, srcInterestRect).mapRectForward(rc)] *)
  mapRectForward : QTransform -> QRect -> QRect -> QRect -> QRect;
  (** [KisSafeTransform(transform, bounds, srcInterestRect).mapRectBackward(rc)] *)
  mapRectBackward : QTransform -> QRect -> QRect -> QRect -> QRect;
  (** [worker.runPartialDst(src, dst, rc)] for a worker with the given
      sub-pixel flag and forward transform: the new value of [dst] *)
  runPartialDst :
    bool -> QTransform -> KisPaintDevice -> KisPaintDevice -> QRect -> KisPaintDevice;
}.

(** [KisTransformMaskParamsInterface]: the virtual methods the mask uses. *)
Class KisTransformMaskParamsInterface {PD : PaintDeviceInterface}
    {TI : TransformInterface} := {
  Params : Type;
  isHidden : Params -> bool;
  isAffine : Params -> bool;
  (** [a->compareTransform(b)], [b] a possibly null shared pointer *)
  compareTransform : Params -> option Params -> bool;
  finalAffineTransform : Params -> QTransform;
  nonAffineChangeRect : Params -> QRect -> QRect;
  nonAffineNeedRect : Params -> QRect -> QRect -> QRect;
  (** [params->transformDevice(node, src, dst, forceSubPixelTranslation)]:
      the new value of [dst] *)
  transformDevice :
    Params -> KisPaintDevice -> KisPaintDevice -> bool -> KisPaintDevice;
}.

(* ===================================================================== *)
(** * StaticCacheStorage *)
(* ===================================================================== *)

Module StaticCache.
Section StaticCache.
Context {PD : PaintDeviceInterface} {TI : TransformInterface}
        {PI : KisTransformMaskParamsInterface}.

Definition KisTransformMaskParamsInterfaceSP := option Params.

Record StaticCacheStorage := mkStaticCacheStorage {
  staticCacheIsOverridden : bool;
  staticCacheValid : bool;
  staticCacheDevice : KisPaintDeviceSP;
  paramsForStaticImage : KisTransformMaskParamsInterfaceSP
}.

(** The member initialisers. *)
Definition initial : StaticCacheStorage :=
  mkStaticCacheStorage false false None None.

Definition isCacheValid (currentParams : KisTransformMaskParamsInterfaceSP)
    (s : StaticCacheStorage) : M bool :=
  assert_noop 55 (negb (staticCacheValid s)
                  || sp_bool (paramsForStaticImage s)
                  || staticCacheIsOverridden s) >>
  ret (staticCacheValid s &&
       match paramsForStaticImage s with
       | None => true
       | Some p => compareTransform p currentParams
       end).

Definition isCacheOverridden (s : StaticCacheStorage) : M bool :=
  assert_noop 67 (negb (staticCacheIsOverridden s) || staticCacheValid s) >>
  ret (staticCacheIsOverridden s).

Definition lazyAllocateStaticCache (cs : KoColorSpace)
    (defaultBounds : KisDefaultBoundsBaseSP) (s : StaticCacheStorage)
    : M StaticCacheStorage :=
  let* stale :=
    match staticCacheDevice s with
    | None => ret true
    | Some _ =>
        let* d := deref (staticCacheDevice s) in
        ret (negb (colorSpaceEq (colorSpace d) cs))
    end in
  if (stale : bool) then
    let* p := alloc (newPaintDevice cs) in
    update p (setDefaultBounds defaultBounds) >>
    ret (mkStaticCacheStorage (staticCacheIsOverridden s) (staticCacheValid s)
           p (paramsForStaticImage s))
  else ret s.

Definition device (s : StaticCacheStorage) : KisPaintDeviceSP :=
  staticCacheDevice s.

Definition setDeviceCacheValid (currentParams : KisTransformMaskParamsInterfaceSP)
    (s : StaticCacheStorage) : M StaticCacheStorage :=
  let s' := mkStaticCacheStorage (staticCacheIsOverridden s) true
              (staticCacheDevice s) currentParams in
  assert_noop 92 (negb (staticCacheIsOverridden s')) >>
  ret s'.

Definition overrideStaticCacheDevice (dev : KisPaintDeviceSP)
    (s : StaticCacheStorage) : M StaticCacheStorage :=
  match staticCacheDevice s with
  | None =>
      (* KIS_SAFE_ASSERT_RECOVER_RETURN(staticCacheDevice) *)
      emit (SafeAssertFailed 97) >> ret s
  | Some _ =>
      update (staticCacheDevice s) clear >>
      match dev with
      | Some _ =>
          let* d := deref dev in
          let rc := extent d in
          update (staticCacheDevice s)
            (fun c => copyAreaOptimized (topLeft rc) d c rc)
      | None => ret tt
      end >>
      ret (mkStaticCacheStorage (sp_bool dev) (sp_bool dev)
             (staticCacheDevice s) None)
  end.

Definition invalidateDeviceCache (s : StaticCacheStorage)
    : M StaticCacheStorage :=
  let s' := mkStaticCacheStorage (staticCacheIsOverridden s) false
              (staticCacheDevice s) None in
  assert_noop 117 (negb (staticCacheIsOverridden s')) >>
  ret s'.

(** The invariant of the data model: an overridden cache is valid. *)
Definition overridden_implies_valid (s : StaticCacheStorage) : Prop :=
  staticCacheIsOverridden s = true -> staticCacheValid s = true.

(** The stored parameters are null or compare equal to [P]. *)
Definition validFor_matches (s : StaticCacheStorage)
    (P : KisTransformMaskParamsInterfaceSP) : Prop :=
  paramsForStaticImage s = None \/
  exists q, paramsForStaticImage s = Some q /\ compareTransform q P = true.

(** The operations of the class, as data, and the state each one leaves. *)
Inductive Operation :=
  | IsCacheValid (currentParams : KisTransformMaskParamsInterfaceSP)
  | IsCacheOverridden
  | LazyAllocateStaticCache (cs : KoColorSpace)
      (defaultBounds : KisDefaultBoundsBaseSP)
  | SetDeviceCacheValid (currentParams : KisTransformMaskParamsInterfaceSP)
  | OverrideStaticCacheDevice (dev : KisPaintDeviceSP)
  | InvalidateDeviceCache.

Definition perform (op : Operation) (s : StaticCacheStorage)
    : M StaticCacheStorage :=
  match op with
  | IsCacheValid currentParams => isCacheValid currentParams s >> ret s
  | IsCacheOverridden => isCacheOverridden s >> ret s
  | LazyAllocateStaticCache cs defaultBounds =>
      lazyAllocateStaticCache cs defaultBounds s
  | SetDeviceCacheValid currentParams => setDeviceCacheValid currentParams s
  | OverrideStaticCacheDevice dev => overrideStaticCacheDevice dev s
  | InvalidateDeviceCache => invalidateDeviceCache s
  end.

(** A shared pointer is null or points into the store. *)
Definition null_or_live (e : Env) (p : KisPaintDeviceSP) : Prop :=
  match p with
  | None => True
  | Some a => is_Some (heap e !! a)
  end.

End StaticCache.
End StaticCache.
Export StaticCache.

(* ===================================================================== *)
(** * KisTransformMask *)
(* ===================================================================== *)

Module TransformMask.

(** [KisNode::PositionToFilthy], the values [kis_transform_mask.cpp] names. *)
Inductive PositionToFilthy := N_FILTHY | N_ABOVE_FILTHY | N_BELOW_FILTHY.

Inductive KisRenderPassFlag := NoTransformMaskUpdates.

(** [KisRenderPassFlags] is a [QFlags] set. *)
Definition KisRenderPassFlags := list KisRenderPassFlag.

Definition testFlag (flags : KisRenderPassFlags) (f : KisRenderPassFlag) : bool :=
  existsb (fun g => match g, f with
                    | NoTransformMaskUpdates, NoTransformMaskUpdates => true
                    end) flags.

(** [AccumulatedRectStorage::takeRect]: read and reset. *)
Definition takeRect (m_rect : QRect) : QRect * QRect := (m_rect, QRect_null).

Record KisImage := mkKisImage { locked : bool }.

(** What the mask reads from its parent node: whether it is a [KisLayer]
    ([qobject_cast<KisLayer*>]), its image, and the bounds and extent of
    its [original()] device. *)
Record ParentNode := mkParentNode {
  isKisLayer : bool;
  image : option KisImage;
  originalBounds : QRect;
  originalExtent : QRect
}.

Section TransformMask.
Context {PD : PaintDeviceInterface} {TI : TransformInterface}
        {PI : KisTransformMaskParamsInterface}.

Record KisPerspectiveTransformWorker := mkWorker {
  forceSubPixelTranslation : bool;
  forwardTransform : QTransform
}.

(** [KisAnimatedTransformParamsHolderInterface], as the mask reads it. *)
Record ParamsHolder := mkParamsHolder {
  bakeIntoParams : KisTransformMaskParamsInterfaceSP;
  isAnimated : bool;
  (** [defaultBounds()->externalFrameActive()] *)
  externalFrameActive : bool
}.

(** The mask: the two things it inherits from [KisNode] that these methods
    use, then the fields of [Private]. *)
Record KisTransformMask := mkKisTransformMask {
  parent : option ParentNode;
  (** [busyProgressIndicator()] is non-null *)
  busyProgressIndicator : bool;
  worker : KisPerspectiveTransformWorker;
  paramsHolder : ParamsHolder;
  staticCache : StaticCacheStorage;
  recalculatingStaticImage : bool;
  forcedStaticUpdateExtraUpdateRect : QRect;
  offBoundsReadArea : qreal;
  (** [testingInterface] is set *)
  testingInterface : bool
}.

Definition set_staticCache (c : StaticCacheStorage) (m : KisTransformMask) :=
  mkKisTransformMask (parent m) (busyProgressIndicator m) (worker m)
    (paramsHolder m) c (recalculatingStaticImage m)
    (forcedStaticUpdateExtraUpdateRect m) (offBoundsReadArea m)
    (testingInterface m).

Definition set_worker (w : KisPerspectiveTransformWorker) (m : KisTransformMask) :=
  mkKisTransformMask (parent m) (busyProgressIndicator m) w
    (paramsHolder m) (staticCache m) (recalculatingStaticImage m)
    (forcedStaticUpdateExtraUpdateRect m) (offBoundsReadArea m)
    (testingInterface m).

Definition set_extraUpdateRect (r : QRect) (m : KisTransformMask) :=
  mkKisTransformMask (parent m) (busyProgressIndicator m) (worker m)
    (paramsHolder m) (staticCache m) (recalculatingStaticImage m)
    r (offBoundsReadArea m) (testingInterface m).

(** A dereference of a null pointer. *)
Definition null_deref {A} : M A := fun _ => None.

(** ** Scheduling of the regeneration job *)

Definition startAsyncRegenerationJob (m : KisTransformMask) : M KisTransformMask :=
  match parent m with
  | None => ret m
  | Some p =>
      if negb (isKisLayer p) then ret m
      else match image p with
           | None => ret m
           | Some img =>
               if locked img then
                 emit CompressorStart >> ret m
               else
                 let '(extraUpdateRect, rest) :=
                   takeRect (forcedStaticUpdateExtraUpdateRect m) in
                 emit (AddSpontaneousJob extraUpdateRect) >>
                 ret (set_extraUpdateRect rest m)
           end
  end.

Definition slotDelayedStaticUpdate (m : KisTransformMask) : M KisTransformMask :=
  (if testingInterface m then emit NotifySlotDelayedStaticUpdate else ret tt) >>
  startAsyncRegenerationJob m.

Definition forceStartAsyncRegenerationJob (m : KisTransformMask)
    : M KisTransformMask :=
  let* c := invalidateDeviceCache (staticCache m) in
  emit CompressorStop >>
  startAsyncRegenerationJob (set_staticCache c m).

Definition staticImageCacheIsValid (m : KisTransformMask) : M bool :=
  isCacheValid (bakeIntoParams (paramsHolder m)) (staticCache m).

(** ** Rendering *)

(** [worker.setForceSubPixelTranslation(..); worker.setForwardTransform(..);
    worker.runPartialDst(src, dst, rc)] *)
Definition runWorker (params : Params) (src dst : KisPaintDeviceSP) (rc : QRect)
    (m : KisTransformMask) : M KisTransformMask :=
  let w := mkWorker (isAnimated (paramsHolder m)) (finalAffineTransform params) in
  let* s := deref src in
  update dst (fun d =>
    runPartialDst (forceSubPixelTranslation w) (forwardTransform w) s d rc) >>
  ret (set_worker w m).

(** The condition under which [decorateRect] asks for a new static image;
    [&&] and [||] evaluate left to right and stop early. *)
Definition needsStaticImageUpdate (params : KisTransformMaskParamsInterfaceSP)
    (maskPos : PositionToFilthy) (flags : KisRenderPassFlags)
    (m : KisTransformMask) : M bool :=
  let* overridden := isCacheOverridden (staticCache m) in
  if (overridden : bool) then ret false
  else if recalculatingStaticImage m then ret false
  else
    let* filthyOrInvalid :=
      match maskPos with
      | N_FILTHY | N_ABOVE_FILTHY => ret true
      | N_BELOW_FILTHY =>
          let* v := isCacheValid params (staticCache m) in
          ret (negb v)
      end in
    if (filthyOrInvalid : bool)
    then ret (negb (testFlag flags NoTransformMaskUpdates))
    else ret false.

(** The result is the returned rectangle and the mask as the call leaves
    it.  [Q_ASSERT_X(src != dst, ...)] is compiled in debug builds only and
    has no part in the result; it is left out. *)
Definition decorateRect (src dst : KisPaintDeviceSP) (rc : QRect)
    (maskPos : PositionToFilthy) (flags : KisRenderPassFlags)
    (m : KisTransformMask) : M (QRect * KisTransformMask) :=
  match bakeIntoParams (paramsHolder m) with
  | None => null_deref
  | Some params =>
    if isHidden params then ret (rc, m)
    else
      assert_noop 458 (match maskPos with
                       | N_FILTHY | N_ABOVE_FILTHY | N_BELOW_FILTHY => true
                       end) >>
      if externalFrameActive (paramsHolder m) then
        if isAffine params then
          let* m1 := runWorker params src dst rc m in
          ret (rc, m1)
        else ret (rc, m)
      else
        let* trigger := needsStaticImageUpdate (Some params) maskPos flags m in
        let* m1 :=
          if (trigger : bool) then
            (if testingInterface m
             then emit NotifyDecorateRectTriggeredStaticImageUpdate
             else ret tt) >>
            let* c := invalidateDeviceCache (staticCache m) in
            emit CompressorStart >>
            ret (set_staticCache c m)
          else ret m in
        let* m2 :=
          if recalculatingStaticImage m1 then
            let* v := isCacheValid (Some params) (staticCache m1) in
            assert_noop 505 (negb v) >>
            let staticCacheDevice := device (staticCache m1) in
            update staticCacheDevice clear >>
            let* s := deref src in
            update staticCacheDevice (fun d =>
              transformDevice params s d (isAnimated (paramsHolder m1))) >>
            let* cached := deref staticCacheDevice in
            let updatedRect := extent cached in
            update dst (fun d =>
              copyAreaOptimized (topLeft updatedRect) cached d updatedRect) >>
            let* c := setDeviceCacheValid (Some params) (staticCache m1) in
            ret (set_staticCache c m1)
          else
            let* partial :=
              if isAffine params then
                let* v := isCacheValid (Some params) (staticCache m1) in
                ret (negb v)
              else ret false in
            if (partial : bool) then runWorker params src dst rc m1
            else
              let* v := isCacheValid (Some params) (staticCache m1) in
              if (v : bool) then
                let* cached := deref (device (staticCache m1)) in
                update dst (fun d => copyAreaOptimized (topLeft rc) cached d rc) >>
                ret m1
              else ret m1 in
        assert_noop 546 (busyProgressIndicator m2) >>
        if busyProgressIndicator m2 then
          emit BusyProgressIndicatorUpdate >> ret (rc, m2)
        else null_deref
  end.

(** The parts of the mask that [decorateRect] reads again after a step. *)
Definition same_node (m m' : KisTransformMask) : Prop :=
  busyProgressIndicator m' = busyProgressIndicator m /\
  paramsHolder m' = paramsHolder m /\
  recalculatingStaticImage m' = recalculatingStaticImage m /\
  device (staticCache m') = device (staticCache m).

(** ** Change and need rectangles *)

(** [bounds] and [interestRect], from the parent or the fallback values. *)
Definition parentGeometry (m : KisTransformMask) : QRect * QRect :=
  match parent m with
  | Some p => (originalBounds p, originalExtent p)
  | None => (QRect_xywh 0 0 777 777, QRect_xywh 0 0 888 888)
  end.

Definition changeRect (rect : QRect) (pos : PositionToFilthy)
    (m : KisTransformMask) : option QRect :=
  if isEmpty rect then Some rect
  else match bakeIntoParams (paramsHolder m) with
       | None => None
       | Some params =>
           if isAffine params then
             let '(bounds, interestRect) := parentGeometry m in
             let limitingRect := blowRect bounds (offBoundsReadArea m) in
             Some (mapRectForward (finalAffineTransform params)
                     limitingRect interestRect rect)
           else Some (nonAffineChangeRect params rect)
       end.

Definition needRect (rect : QRect) (pos : PositionToFilthy)
    (m : KisTransformMask) : option QRect :=
  if isEmpty rect then Some rect
  else match bakeIntoParams (paramsHolder m) with
       | None => None
       | Some params =>
           let '(bounds, interestRect) := parentGeometry m in
           if isAffine params then
             let limitingRect := blowRect bounds (offBoundsReadArea m) in
             let needRect := mapRectBackward (finalAffineTransform params)
                               limitingRect interestRect rect in
             Some (kisGrowRect needRect 1)
           else Some (nonAffineNeedRect params rect interestRect)
       end.

(** ** Node kinds *)

(** The node kinds of the change/need-rect contract.  The transform mask
    (with affine or non-affine parameters) is the code above. *)
Inductive NodeKind :=
  | PassThroughNode
  | TransformMaskNode (m : KisTransformMask).

(** Modelled from the spec: the identity/pass-through node, whose class is
    not among the sources at hand.  "For an identity/pass-through node:
    both are identity." *)
Definition passThroughRect (rect : QRect) : option QRect := Some rect.

Definition nodeChangeRect (k : NodeKind) (rect : QRect) (pos : PositionToFilthy)
    : option QRect :=
  match k with
  | PassThroughNode => passThroughRect rect
  | TransformMaskNode m => changeRect rect pos m
  end.

Definition nodeNeedRect (k : NodeKind) (rect : QRect) (pos : PositionToFilthy)
    : option QRect :=
  match k with
  | PassThroughNode => passThroughRect rect
  | TransformMaskNode m => needRect rect pos m
  end.

End TransformMask.
End TransformMask.
Export TransformMask.

(* ===================================================================== *)
(** * KisPaintOpPresetUpdateProxy *)
(* ===================================================================== *)

Module UpdateProxy.

(** The C++ [int]: 32 bits, two's complement. *)
Definition INT_MAX : Z := 2147483647.

Definition int_wrap (z : Z) : Z := (z + 2147483648) mod 4294967296 - 2147483648.

(** What the proxy emits or requests, in program order. *)
Inductive Signal :=
  | sigSettingsChangedUncompressedEarlyWarning
  | sigSettingsChangedUncompressed
  | sigSettingsChanged
  | sigUniformPropertiesChanged
  | updatesCompressorStart.

Record Private := mkPrivate {
  updatesBlocked : Z;
  numUpdatesWhileBlocked : Z
}.

(** [Private()] *)
Definition initial : Private := mkPrivate 0 0.

Definition notifySettingsChanged (d : Private) : Private * list Signal :=
  if negb (updatesBlocked d =? 0) then
    (mkPrivate (updatesBlocked d) (int_wrap (numUpdatesWhileBlocked d + 1)), [])
  else
    (d, [sigSettingsChangedUncompressedEarlyWarning;
         sigSettingsChangedUncompressed;
         updatesCompressorStart]).

Definition notifyUniformPropertiesChanged (d : Private) : Private * list Signal :=
  (d, [sigUniformPropertiesChanged]).

Definition postponeSettingsChanges (d : Private) : Private * list Signal :=
  (mkPrivate (int_wrap (updatesBlocked d + 1)) (numUpdatesWhileBlocked d), []).

Definition unpostponeSettingsChanges (d : Private) : Private * list Signal :=
  let blocked := int_wrap (updatesBlocked d - 1) in
  if (blocked =? 0) && negb (numUpdatesWhileBlocked d =? 0) then
    (mkPrivate blocked 0,
     [sigSettingsChangedUncompressedEarlyWarning;
      sigSettingsChangedUncompressed;
      sigSettingsChanged])
  else (mkPrivate blocked (numUpdatesWhileBlocked d), []).

(** The slot connected to the compressor's [timeout()]. *)
Definition slotDeliverSettingsChanged (d : Private) : Private * list Signal :=
  if negb (updatesBlocked d =? 0) then
    (mkPrivate (updatesBlocked d) (int_wrap (numUpdatesWhileBlocked d + 1)), [])
  else (d, [sigSettingsChanged]).

(** A sequence of calls on one proxy; the signals are concatenated. *)
Inductive Call :=
  | CallNotify | CallNotifyUniform | CallPostpone | CallUnpostpone | CallTimeout.

Definition call (c : Call) : Private -> Private * list Signal :=
  match c with
  | CallNotify => notifySettingsChanged
  | CallNotifyUniform => notifyUniformPropertiesChanged
  | CallPostpone => postponeSettingsChanges
  | CallUnpostpone => unpostponeSettingsChanges
  | CallTimeout => slotDeliverSettingsChanged
  end.

Fixpoint calls (cs : list Call) (d : Private) : Private * list Signal :=
  match cs with
  | [] => (d, [])
  | c :: rest =>
      let '(d1, out1) := call c d in
      let '(d2, out2) := calls rest d1 in
      (d2, out1 ++ out2)
  end.

Definition Signal_eqb (a b : Signal) : bool :=
  match a, b with
  | sigSettingsChangedUncompressedEarlyWarning,
    sigSettingsChangedUncompressedEarlyWarning
  | sigSettingsChangedUncompressed, sigSettingsChangedUncompressed
  | sigSettingsChanged, sigSettingsChanged
  | sigUniformPropertiesChanged, sigUniformPropertiesChanged
  | updatesCompressorStart, updatesCompressorStart => true
  | _, _ => false
  end.

(** How many times a signal occurs in a trace. *)
Definition occurrences (sg : Signal) (out : list Signal) : nat :=
  length (filter (fun x => Signal_eqb sg x = true) out).

End UpdateProxy.

(* ===================================================================== *)
(** * KisImageSignalRouter *)
(* ===================================================================== *)

Module SignalRouter.

(** [KisImageSignalTypeEnum], the cases of the switch in [slotNotification]. *)
Inductive KisImageSignalTypeEnum :=
  | LayersChangedSignal
  | ModifiedWithoutUndoSignal
  | SizeChangedSignal
  | ProfileChangedSignal
  | ColorSpaceChangedSignal
  | ResolutionChangedSignal
  | NodeReselectionRequestSignal.

Section SignalRouter.
(** Payload types the router only passes on. *)
Context {QPointF KoColorProfile KoColorSpace KisNode Resolution : Type}.

Definition KisNodeSP := option KisNode.
Definition KisNodeList := list KisNodeSP.

Record ComplexSizeChangedSignal := mkSizeChanged {
  oldStillPoint : QPointF;
  newStillPoint : QPointF
}.

Record ComplexNodeReselectionSignal := mkNodeReselection {
  newActiveNode : KisNodeSP;
  newSelectedNodes : KisNodeList
}.

Record KisImageSignalType := mkSignalType {
  id : KisImageSignalTypeEnum;
  sizeChangedSignal : ComplexSizeChangedSignal;
  nodeReselectionSignal : ComplexNodeReselectionSignal
}.

(** What the router reads from a live image. *)
Record KisImage := mkKisImage {
  profile : KoColorProfile;
  colorSpace : KoColorSpace;
  xRes : Resolution;
  yRes : Resolution
}.

(** [m_image.toStrongRef()]: the image, or null once it is gone. *)
Definition KisImageWSP := option KisImage.

(** What the router does, in program order: the call to the image, the
    signals to subscribers, and its own queued signal. *)
Inductive Action :=
  | invalidateAllFrames
  | sigLayersChangedAsync
  | sigImageModifiedWithoutUndo
  | sigSizeChanged (oldStillPoint newStillPoint : QPointF)
  | sigProfileChanged (p : KoColorProfile)
  | sigColorSpaceChanged (cs : KoColorSpace)
  | sigResolutionChanged (x y : Resolution)
  | sigRequestNodeReselection (node : KisNodeSP) (nodes : KisNodeList)
  | sigNotification (type : KisImageSignalType).

(** [QList::isEmpty()] *)
Definition list_isEmpty {A} (l : list A) : bool :=
  match l with [] => true | _ => false end.

Definition slotNotification (m_image : KisImageWSP) (type : KisImageSignalType)
    : list Action :=
  match m_image with
  | None => []
  | Some image =>
      match id type with
      | LayersChangedSignal =>
          [invalidateAllFrames; sigLayersChangedAsync]
      | ModifiedWithoutUndoSignal =>
          [sigImageModifiedWithoutUndo]
      | SizeChangedSignal =>
          [invalidateAllFrames;
           sigSizeChanged (oldStillPoint (sizeChangedSignal type))
                          (newStillPoint (sizeChangedSignal type))]
      | ProfileChangedSignal =>
          [invalidateAllFrames; sigProfileChanged (profile image)]
      | ColorSpaceChangedSignal =>
          [invalidateAllFrames; sigColorSpaceChanged (colorSpace image)]
      | ResolutionChangedSignal =>
          [invalidateAllFrames; sigResolutionChanged (xRes image) (yRes image)]
      | NodeReselectionRequestSignal =>
          if sp_bool (newActiveNode (nodeReselectionSignal type))
             || negb (list_isEmpty (newSelectedNodes (nodeReselectionSignal type)))
          then [sigRequestNodeReselection
                  (newActiveNode (nodeReselectionSignal type))
                  (newSelectedNodes (nodeReselectionSignal type))]
          else []
      end
  end.

(** The kinds that must reach subscribers in the order they were sent. *)
Definition ordering_critical (type : KisImageSignalType) : Prop :=
  id type = LayersChangedSignal \/ id type = NodeReselectionRequestSignal.

(** The two ways [emitNotification] hands a notification on. *)
Inductive Dispatch :=
  | DirectCall (type : KisImageSignalType)
  | QueuedSignal (type : KisImageSignalType).

Definition emitNotification_dispatch (type : KisImageSignalType) : Dispatch :=
  match id type with
  | LayersChangedSignal | NodeReselectionRequestSignal => DirectCall type
  | _ => QueuedSignal type
  end.

Definition emitNotification (m_image : KisImageWSP) (type : KisImageSignalType)
    : list Action :=
  match emitNotification_dispatch type with
  | DirectCall t => slotNotification m_image t
  | QueuedSignal t => [sigNotification t]
  end.

Definition emitNotifications (m_image : KisImageWSP)
    (notifications : list KisImageSignalType) : list Action :=
  concat (map (emitNotification m_image) notifications).

(** The signals the router sends to subscribers on its image. *)
Definition delivered (a : Action) : bool :=
  match a with
  | invalidateAllFrames | sigNotification _ => false
  | _ => true
  end.

End SignalRouter.
End SignalRouter.

(* ===================================================================== *)
(** * Rectangle union and the accumulated update rectangle *)
(* ===================================================================== *)

Module QtUnion.

(** [int] arithmetic of the rectangle code: a result outside the 32-bit
    range wraps around. *)
Definition int_sub (a b : Z) : Z := UpdateProxy.int_wrap (a - b).
Definition int_add (a b : Z) : Z := UpdateProxy.int_wrap (a + b).

(** [QRect::isNull()]: [x2 == x1 - 1 && y2 == y1 - 1]. *)
Definition isNull (r : QRect) : bool :=
  (x2 r =? int_sub (x1 r) 1) && (y2 r =? int_sub (y1 r) 1).

(** The test [hi - lo + 1 < 0] of [QRect::operator|], in [int]. *)
Definition backwards (lo hi : Z) : bool := int_add (int_sub hi lo) 1 <? 0.

(** [QRect::operator|] of Qt 5: a null operand yields the other one;
    otherwise each rectangle is put in order per axis and the bounding
    rectangle is taken. *)
Definition united (a b : QRect) : QRect :=
  if isNull a then b
  else if isNull b then a
  else
    let l1 := if backwards (x1 a) (x2 a) then x2 a else x1 a in
    let r1 := if backwards (x1 a) (x2 a) then x1 a else x2 a in
    let l2 := if backwards (x1 b) (x2 b) then x2 b else x1 b in
    let r2 := if backwards (x1 b) (x2 b) then x1 b else x2 b in
    let t1 := if backwards (y1 a) (y2 a) then y2 a else y1 a in
    let b1 := if backwards (y1 a) (y2 a) then y1 a else y2 a in
    let t2 := if backwards (y1 b) (y2 b) then y2 b else y1 b in
    let b2 := if backwards (y1 b) (y2 b) then y1 b else y2 b in
    mkQRect (Z.min l1 l2) (Z.min t1 t2) (Z.max r1 r2) (Z.max b1 b2).

(** Every pixel of [b] is a pixel of [a]. *)
Definition covers (a b : QRect) : Prop :=
  x1 a <= x1 b /\ y1 a <= y1 b /\ x2 b <= x2 a /\ y2 b <= y2 a.

(** A rectangle whose coordinates are [int]s and whose width and height,
    [x2 - x1 + 1] and [y2 - y1 + 1], do not exceed [INT_MAX]: the range in
    which the [int] arithmetic of [QRect] does not wrap around. *)
Definition int_sized (rc : QRect) : Prop :=
  -2147483648 <= x1 rc /\ x2 rc <= UpdateProxy.INT_MAX /\
  -2147483648 <= y1 rc /\ y2 rc <= UpdateProxy.INT_MAX /\
  x2 rc - x1 rc < UpdateProxy.INT_MAX /\ y2 rc - y1 rc < UpdateProxy.INT_MAX.

(** [AccumulatedRectStorage::addRect]: [m_rect |= rc]. *)
Definition addRect (rc : QRect) (m_rect : QRect) : QRect := united m_rect rc.

(** What the accumulator holds between drains, when every request lies
    within [frame]: nothing yet, or a proper rectangle within [frame]. *)
Definition accumulated (frame rc : QRect) : Prop :=
  rc = QRect_null \/ (isEmpty rc = false /\ covers frame rc).

End QtUnion.
Export QtUnion.

(* ===================================================================== *)
(** * KisTransformMask: the remaining entry points *)
(* ===================================================================== *)

Module TransformMaskEntryPoints.

(** The testing-interface notifications and the signal of the entry points
    below, in program order. *)
Inductive MaskSignal :=
  | NotifyThreadSafeForceStaticImageUpdate
  | NotifyForceUpdateTimedNode
  | sigInternalForceStaticImageUpdate.

(** What [extent()] and [sourceDataBounds()] read from the parent layer. *)
Record ParentLayerView := mkParentLayerView {
  (** [parentLayer->partialChangeRect(this, rc)] *)
  partialChangeRect : QRect -> QRect;
  (** [parentLayer->projection()->extent()] *)
  projectionExtent : QRect;
  (** [parentLayer->original()->exactBounds()] *)
  originalExactBounds : QRect
}.

Section TransformMaskEntryPoints.
Context {PD : PaintDeviceInterface} {TI : TransformInterface}
        {PI : KisTransformMaskParamsInterface}.

Definition set_paramsHolder (h : ParamsHolder) (m : KisTransformMask) :=
  mkKisTransformMask (parent m) (busyProgressIndicator m) (worker m)
    h (staticCache m) (recalculatingStaticImage m)
    (forcedStaticUpdateExtraUpdateRect m) (offBoundsReadArea m)
    (testingInterface m).

(** [qobject_cast<KisLayer*>(parent().data())] *)
Definition parentLayer (m : KisTransformMask) : option ParentNode :=
  match parent m with
  | Some p => if isKisLayer p then Some p else None
  | None => None
  end.

(** [setTransformParams], with [setTransformParamsWithUndo] inlined.
    [applyParams p h] is the holder [h] after
    [setParamsAtCurrentPosition(p, &cmd)] and [cmd.redo()]; with null
    parameters the guard returns before the holder is touched and the
    command stays empty. *)
Definition setTransformParams (applyParams : Params -> ParamsHolder -> ParamsHolder)
    (params : KisTransformMaskParamsInterfaceSP) (m : KisTransformMask)
    : M KisTransformMask :=
  let* m1 :=
    match params with
    | None => emit (SafeAssertFailed 247) >> ret m
    | Some p => ret (set_paramsHolder (applyParams p (paramsHolder m)) m)
    end in
  let* c := invalidateDeviceCache (staticCache m1) in
  emit CompressorStart >>
  ret (set_staticCache c m1).

(** [threadSafeForceStaticImageUpdate(extraUpdateRect)]; it touches neither
    the store nor the compressor. *)
Definition threadSafeForceStaticImageUpdate (extraUpdateRect : QRect)
    (m : KisTransformMask) : KisTransformMask * list MaskSignal :=
  let notes :=
    if testingInterface m then [NotifyThreadSafeForceStaticImageUpdate] else [] in
  let m1 :=
    if negb (isEmpty extraUpdateRect)
    then set_extraUpdateRect
           (addRect extraUpdateRect (forcedStaticUpdateExtraUpdateRect m)) m
    else m in
  (m1, notes ++ [sigInternalForceStaticImageUpdate]).

(** The events of a run among which a job was submitted. *)
Definition job_submitted (evs : list Event) : Prop :=
  exists rc, In (AddSpontaneousJob rc) evs.

(** The answer of [isCacheValid], without its assertion. *)
Definition servesParams (s : StaticCacheStorage)
    (Q : KisTransformMaskParamsInterfaceSP) : bool :=
  staticCacheValid s &&
  match paramsForStaticImage s with
  | None => true
  | Some p => compareTransform p Q
  end.

(** The conditions that keep [decorateRect] from asking for a new image. *)
Definition update_suppressed (flags : KisRenderPassFlags) (m : KisTransformMask)
    : Prop :=
  testFlag flags NoTransformMaskUpdates = true \/
  recalculatingStaticImage m = true \/
  staticCacheIsOverridden (staticCache m) = true.

(** The events by which [decorateRect] asks for a new static image. *)
Definition asks_for_update (ev : Event) : Prop :=
  ev = CompressorStart \/ ev = NotifyDecorateRectTriggeredStaticImageUpdate.

(** A series of [threadSafeForceStaticImageUpdate] calls, one per
    rectangle, and the mask they leave. *)
Definition requestUpdates (rects : list QRect) (m : KisTransformMask)
    : KisTransformMask :=
  fold_left (fun m1 rc => fst (threadSafeForceStaticImageUpdate rc m1)) rects m.

(** The slot connected to [sigInternalForceStaticImageUpdate]. *)
Definition slotInternalForceStaticImageUpdate (m : KisTransformMask)
    : M KisTransformMask :=
  forceStartAsyncRegenerationJob m.

(** [forceUpdateTimedNode]; [pendingTimedUpdates] is what
    [hasPendingTimedUpdates()], that is [updateSignalCompressor.isActive()],
    answers. *)
Definition forceUpdateTimedNode (pendingTimedUpdates : bool)
    (m : KisTransformMask) : M (KisTransformMask * list MaskSignal) :=
  let notes := if testingInterface m then [NotifyForceUpdateTimedNode] else [] in
  let* stale :=
    if pendingTimedUpdates then ret true
    else
      let* v := isCacheValid (bakeIntoParams (paramsHolder m)) (staticCache m) in
      ret (negb v) in
  if (stale : bool) then
    let* m1 := forceStartAsyncRegenerationJob m in
    ret (m1, notes)
  else ret (m, notes).

(** [sourceDataBounds()] *)
Definition sourceDataBounds (view : ParentLayerView) (m : KisTransformMask) : QRect :=
  match parentLayer m with
  | Some _ => partialChangeRect view (originalExactBounds view)
  | None => QRect_null
  end.

(** [extent()]; [rc] is [KisMask::extent()]. *)
Definition extent_of_mask (rc : QRect) (view : ParentLayerView)
    (m : KisTransformMask) : option QRect :=
  let '(partial, existentProjection) :=
    match parentLayer m with
    | Some _ => (partialChangeRect view rc, projectionExtent view)
    | None => (QRect_null, QRect_null)
    end in
  match changeRect partial N_FILTHY m with
  | Some changed => Some (united changed existentProjection)
  | None => None
  end.

(** [getLodCapableDevices()], after the devices of the base class. *)
Definition getLodCapableDevices (base : list KisPaintDeviceSP)
    (m : KisTransformMask) : list KisPaintDeviceSP :=
  match device (staticCache m) with
  | Some a => base ++ [Some a]
  | None => base
  end.

End TransformMaskEntryPoints.
End TransformMaskEntryPoints.
Export TransformMaskEntryPoints.

(* ===================================================================== *)
(** * Effects of a computation on the store and the trace *)
(* ===================================================================== *)

Section Footprint.
Context {PD : PaintDeviceInterface}.

(** From [e] to [e']: the store keeps its size, only addresses in [S] may
    hold a new value, and the events added to the trace all satisfy [P]. *)
Definition step (S : nat -> Prop) (P : Event -> Prop) (e e' : Env) : Prop :=
  length (heap e') = length (heap e) /\
  (forall x : nat, ~ S x -> heap e' !! x = heap e !! x) /\
  exists evs, trace e' = trace e ++ evs /\ Forall P evs.

(** Whenever [m] returns, it has made such a step and its result satisfies
    [Q]. *)
Definition effects {A} (S : nat -> Prop) (P : Event -> Prop) (m : M A)
    (Q : A -> Prop) : Prop :=
  forall e a e', m e = Some (a, e') -> step S P e e' /\ Q a.

(** Failed assertions are among the events [P] allows. *)
Definition assertions_allowed (P : Event -> Prop) : Prop :=
  forall line, P (SafeAssertFailed line).

(** The addresses two shared pointers may point to. *)
Definition targets (p q : KisPaintDeviceSP) (x : nat) : Prop :=
  p = Some x \/ q = Some x.

End Footprint.

(* ===================================================================== *)
(** * KisImageSignalRouter: the node emitters *)
(* ===================================================================== *)

Module SignalRouterNodes.
Section SignalRouterNodes.
Context {KisNode : Type}.

(** [node->inherits("KisSelectionMask")] *)
Variable inheritsKisSelectionMask : KisNode -> bool.

Inductive NodeAction :=
  | invalidateAllFrames
  | sigNodeAddedAsync (node : KisNode)
  | sigRemoveNodeAsync (node : KisNode).

(** [emitNodeHasBeenAdded(parent, index)]; [newNode] is [parent->at(index)]
    and [imageAlive] tells whether [m_image.toStrongRef()] is non-null.
    A null [newNode] is dereferenced: no result. *)
Definition emitNodeHasBeenAdded (imageAlive : bool) (newNode : option KisNode)
    : option (list NodeAction) :=
  match newNode with
  | None => None
  | Some node =>
      Some ((if negb (inheritsKisSelectionMask node) && imageAlive
             then [invalidateAllFrames] else [])
            ++ [sigNodeAddedAsync node])
  end.

(** [emitAboutToRemoveANode(parent, index)] *)
Definition emitAboutToRemoveANode (imageAlive : bool) (removedNode : option KisNode)
    : option (list NodeAction) :=
  match removedNode with
  | None => None
  | Some node =>
      Some ((if negb (inheritsKisSelectionMask node) && imageAlive
             then [invalidateAllFrames] else [])
            ++ [sigRemoveNodeAsync node])
  end.

End SignalRouterNodes.
End SignalRouterNodes.

(* ===================================================================== *)
(** * Vocabulary for the update proxy and the router *)
(* ===================================================================== *)

Module ProxyCalls.
Import UpdateProxy.

(** The calls a postponement holds back: a notification, or the timeout of
    the compressor. *)
Definition held_back (c : Call) : Prop := c = CallNotify \/ c = CallTimeout.

(** What the end of a postponement delivers. *)
Definition triple : list Signal :=
  [sigSettingsChangedUncompressedEarlyWarning;
   sigSettingsChangedUncompressed;
   sigSettingsChanged].

End ProxyCalls.
Export ProxyCalls.

Module RouterKinds.
Import SignalRouter.

(** The kinds whose delivery changes what a rendered frame looks like. *)
Definition changes_frames (k : KisImageSignalTypeEnum) : Prop :=
  k = LayersChangedSignal \/ k = SizeChangedSignal \/ k = ProfileChangedSignal \/
  k = ColorSpaceChangedSignal \/ k = ResolutionChangedSignal.

End RouterKinds.
Export RouterKinds.

(* ===================================================================== *)
(** * The safe transform, as the specification describes it *)
(* ===================================================================== *)

(** [KisSafeTransform], [QTransform] and [KisAlgebra2D::blowRect] are not
    among the sources at hand.  This module follows the words of the
    specification for them: "changeRect forward-maps via the transform
    restricted to a safety-clamped bounding rectangle (to avoid unbounded or
    degenerate rectangles from near-singular matrices - clamp using the
    parent's nominal bounds grown by a configurable fractional margin,
    default 0.5x the bounds size); needRect back-maps and then grows the
    result by 1px in every direction".  The specification does not speak of
    floating point: coordinates are exact rationals here. *)
Module SafeTransform.

(** Modelled from the spec: the "affine matrix" of the transform
    parameters ([QTransform] is not among the sources).  The point
    [(x, y)] goes to [(m11 x + m21 y + dx, m12 x + m22 y + dy)]. *)
Record AffineMatrix := mkAffineMatrix {
  m11 : Q; m12 : Q; m21 : Q; m22 : Q; dx : Q; dy : Q
}.

(** Modelled from the spec: the two coordinates of the image of a point
    under the affine matrix. *)
Definition map_x (T : AffineMatrix) (x y : Q) : Q :=
  (m11 T * x + m21 T * y + dx T)%Q.

Definition map_y (T : AffineMatrix) (x y : Q) : Q :=
  (m12 T * x + m22 T * y + dy T)%Q.

Definition determinant (T : AffineMatrix) : Q :=
  (m11 T * m22 T - m12 T * m21 T)%Q.

(** Modelled from the spec: the matrix that "back-maps", the inverse of
    the affine matrix.  The specification says nothing of singular
    matrices; the division by a zero determinant yields zero here. *)
Definition inverted (T : AffineMatrix) : AffineMatrix :=
  let k := (/ determinant T)%Q in
  mkAffineMatrix (m22 T * k) (- m12 T * k) (- m21 T * k) (m11 T * k)
    ((m21 T * dy T - m22 T * dx T) * k)
    ((m12 T * dx T - m11 T * dy T) * k).

Definition least (p q : Q) : Q := if Qle_bool p q then p else q.
Definition greatest (p q : Q) : Q := if Qle_bool p q then q else p.
Definition least4 (a b c d : Q) : Q := least (least a b) (least c d).
Definition greatest4 (a b c d : Q) : Q := greatest (greatest a b) (greatest c d).

(** Modelled from the spec: the "bounding rectangle" of the image of a
    rectangle.  The pixels of [rc] fill the area from [(x1, y1)] to
    [(x2 + 1, y2 + 1)]; its four corners are mapped, and the bounding
    rectangle of the images is widened to whole pixels. *)
Definition mapRect (T : AffineMatrix) (rc : QRect) : QRect :=
  let l := inject_Z (x1 rc) in
  let t := inject_Z (y1 rc) in
  let r := inject_Z (x2 rc + 1) in
  let b := inject_Z (y2 rc + 1) in
  mkQRect
    (Qfloor (least4 (map_x T l t) (map_x T r t) (map_x T l b) (map_x T r b)))
    (Qfloor (least4 (map_y T l t) (map_y T r t) (map_y T l b) (map_y T r b)))
    (Qceiling (greatest4 (map_x T l t) (map_x T r t) (map_x T l b) (map_x T r b)) - 1)
    (Qceiling (greatest4 (map_y T l t) (map_y T r t) (map_y T l b) (map_y T r b)) - 1).

(** Modelled from the spec: the "clamp", the part of a rectangle inside the
    limiting rectangle; the null rectangle when there is none. *)
Definition clampedTo (limiting rc : QRect) : QRect :=
  let r := mkQRect (Z.max (x1 rc) (x1 limiting)) (Z.max (y1 rc) (y1 limiting))
                   (Z.min (x2 rc) (x2 limiting)) (Z.min (y2 rc) (y2 limiting)) in
  if isEmpty r then QRect_null else r.

(** Modelled from the spec: [KisSafeTransform::mapRectForward], which
    "forward-maps via the transform restricted to a safety-clamped bounding
    rectangle". *)
Definition safeMapRectForward (T : AffineMatrix)
    (limiting interest rc : QRect) : QRect :=
  clampedTo limiting (mapRect T rc).

(** Modelled from the spec: [KisSafeTransform::mapRectBackward], which
    "back-maps" under the same clamp. *)
Definition safeMapRectBackward (T : AffineMatrix)
    (limiting interest rc : QRect) : QRect :=
  clampedTo limiting (mapRect (inverted T) rc).

(** Modelled from the spec: [KisAlgebra2D::blowRect], "the parent's nominal
    bounds grown by a configurable fractional margin, default 0.5x the
    bounds size": each side moves out by the margin times the width or the
    height, rounded down to whole pixels. *)
Definition blowRectBy (rc : QRect) (coeff : Q) : QRect :=
  let w := Qfloor (coeff * inject_Z (x2 rc - x1 rc + 1)) in
  let h := Qfloor (coeff * inject_Z (y2 rc - y1 rc + 1)) in
  adjusted (- w) (- h) w h rc.

(** Modelled from the spec: the transform interface of the mask, filled in
    with the definitions above.  The worker is not part of the description
    and stays a parameter. *)
Definition safeTransforms {PD : PaintDeviceInterface}
    (worker : bool -> AffineMatrix -> KisPaintDevice -> KisPaintDevice ->
              QRect -> KisPaintDevice) : TransformInterface := {|
  qreal := Q;
  QTransform := AffineMatrix;
  blowRect := blowRectBy;
  mapRectForward := safeMapRectForward;
  mapRectBackward := safeMapRectBackward;
  runPartialDst := worker
|}.

(** A rectangle strictly inside the [int] range: growing it by one pixel
    does not wrap around. *)
Definition int_inner (rc : QRect) : Prop :=
  -2147483648 < x1 rc /\ x2 rc < UpdateProxy.INT_MAX /\
  -2147483648 < y1 rc /\ y2 rc < UpdateProxy.INT_MAX.

(** A rectangle whose four coordinates are [int]s. *)
Definition int_coordinates (rc : QRect) : Prop :=
  -2147483648 <= x1 rc /\ x2 rc <= UpdateProxy.INT_MAX /\
  -2147483648 <= y1 rc /\ y2 rc <= UpdateProxy.INT_MAX.

End SafeTransform.
Export SafeTransform.

(* ===================================================================== *)
(** * A small implementation of the collaborator interfaces *)
(* ===================================================================== *)

(** Devices that hold a list of coloured points, and transforms that are
    integer translations.  The examples below run the model on them. *)
Module Fixture.

Record PointDevice := mkPointDevice {
  pd_colorSpace : nat;
  pd_defaultBounds : nat;
  pd_pixels : list (QPoint * nat)
}.

Definition inside (rc : QRect) (p : QPoint) : bool :=
  (x1 rc <=? px p) && (px p <=? x2 rc) && (y1 rc <=? py p) && (py p <=? y2 rc).

(** The smallest rectangle around the points, null when there are none. *)
Fixpoint boundingRect (l : list (QPoint * nat)) : QRect :=
  match l with
  | [] => QRect_null
  | (p, _) :: rest =>
      let r := boundingRect rest in
      if isEmpty r then mkQRect (px p) (py p) (px p) (py p)
      else mkQRect (Z.min (x1 r) (px p)) (Z.min (y1 r) (py p))
                   (Z.max (x2 r) (px p)) (Z.max (y2 r) (py p))
  end.

Definition keep (f : QPoint -> bool) (l : list (QPoint * nat)) :=
  List.filter (fun q => f (fst q)) l.

Definition translate (t : Z * Z) (p : QPoint) : QPoint :=
  mkQPoint (px p + fst t) (py p + snd t).

Definition translateRect (t : Z * Z) (r : QRect) : QRect :=
  mkQRect (x1 r + fst t) (y1 r + snd t) (x2 r + fst t) (y2 r + snd t).

#[export] Instance pointDevices : PaintDeviceInterface := {|
  KoColorSpace := nat;
  KisDefaultBoundsBaseSP := nat;
  KisPaintDevice := PointDevice;
  colorSpaceEq := Nat.eqb;
  newPaintDevice := fun cs => mkPointDevice cs 0 [];
  setDefaultBounds := fun b d => mkPointDevice (pd_colorSpace d) b (pd_pixels d);
  colorSpace := pd_colorSpace;
  clear := fun d => mkPointDevice (pd_colorSpace d) (pd_defaultBounds d) [];
  extent := fun d => boundingRect (pd_pixels d);
  copyAreaOptimized := fun _ src dst rc =>
    mkPointDevice (pd_colorSpace dst) (pd_defaultBounds dst)
      (keep (inside rc) (pd_pixels src)
       ++ keep (fun p => negb (inside rc p)) (pd_pixels dst))
|}.

#[export] Instance translations : TransformInterface := {|
  qreal := Z;
  QTransform := Z * Z;
  blowRect := fun r c => adjusted (- c) (- c) c c r;
  mapRectForward := fun t _ _ rc => translateRect t rc;
  mapRectBackward := fun t _ _ rc => translateRect (- fst t, - snd t) rc;
  runPartialDst := fun _ t src dst rc =>
    mkPointDevice (pd_colorSpace dst) (pd_defaultBounds dst)
      (keep (inside rc) (map (fun q => (translate t (fst q), snd q)) (pd_pixels src))
       ++ keep (fun p => negb (inside rc p)) (pd_pixels dst))
|}.

Record TranslationParams := mkTranslationParams {
  tp_hidden : bool;
  tp_affine : bool;
  tp_offset : Z * Z
}.

#[export] Instance translationParams : KisTransformMaskParamsInterface := {|
  Params := TranslationParams;
  isHidden := tp_hidden;
  isAffine := tp_affine;
  compareTransform := fun a b =>
    match b with
    | Some b => (fst (tp_offset a) =? fst (tp_offset b))
                && (snd (tp_offset a) =? snd (tp_offset b))
    | None => false
    end;
  finalAffineTransform := tp_offset;
  nonAffineChangeRect := fun p rc => translateRect (tp_offset p) rc;
  nonAffineNeedRect := fun p rc _ =>
    translateRect (- fst (tp_offset p), - snd (tp_offset p)) rc;
  transformDevice := fun p src dst _ =>
    mkPointDevice (pd_colorSpace dst) (pd_defaultBounds dst)
      (map (fun q => (translate (tp_offset p) (fst q), snd q)) (pd_pixels src))
|}.

(** A device with two pixels, and an empty one in another colour space. *)
Definition painted : PointDevice :=
  mkPointDevice 1 0 [(mkQPoint 2 3, 7%nat); (mkQPoint 5 1, 9%nat)].

Definition blank : PointDevice := mkPointDevice 1 0 [].

Definition shift : TranslationParams := mkTranslationParams false true (10, 0).

(** A store with [painted] at address 0 and nothing traced yet. *)
Definition env0 : Env := mkEnv [painted] [].

(** A store with [painted] at 0 (source), [blank] at 1 (destination) and
    [blank] at 2 (static cache). *)
Definition env3 : Env := mkEnv [painted; blank; blank] [].

(** The allocated cache of the examples: device at address 2, not valid. *)
Definition allocated : StaticCacheStorage :=
  mkStaticCacheStorage false false (Some 2%nat) None.

(** A cache that a finished regeneration marked valid for [shift]. *)
Definition regenerated : StaticCacheStorage :=
  mkStaticCacheStorage false true (Some 2%nat) (Some shift).

Definition lockedParent : ParentNode :=
  mkParentNode true (Some (mkKisImage true))
    (QRect_xywh 0 0 100 100) (QRect_xywh 0 0 64 64).

Definition mask0 : KisTransformMask :=
  mkKisTransformMask (Some lockedParent) true (mkWorker true (0, 0))
    (mkParamsHolder (Some shift) false false) allocated
    false (QRect_xywh 1 1 4 4) 0 false.

(** A reselection request for node 1, and an image to route it for. *)
Definition reselectNode1 : @SignalRouter.KisImageSignalType nat nat :=
  SignalRouter.mkSignalType SignalRouter.NodeReselectionRequestSignal
    (SignalRouter.mkSizeChanged 0%nat 0%nat)
    (SignalRouter.mkNodeReselection (Some 1%nat) []).

Definition liveImage : @SignalRouter.KisImageWSP nat nat nat :=
  Some (SignalRouter.mkKisImage 0%nat 0%nat 72%nat 72%nat).

(** More masks over the store [env3]: all share the parameters [shift]
    and the cache device at address 2. *)
Definition rc20 : QRect := QRect_xywh 0 0 20 20.

Definition unlockedParent : ParentNode :=
  mkParentNode true (Some (mkKisImage false))
    (QRect_xywh 0 0 100 100) (QRect_xywh 0 0 64 64).

Definition mask_with (p : option ParentNode) (h : ParamsHolder)
    (c : StaticCacheStorage) (recalculating : bool) : KisTransformMask :=
  mkKisTransformMask p true (mkWorker true (0, 0)) h c recalculating
    QRect_null 0 false.

Definition still : ParamsHolder := mkParamsHolder (Some shift) false false.

(** Locked image, accumulator drained. *)
Definition drained : KisTransformMask :=
  mask_with (Some lockedParent) still allocated false.

(** Unlocked image, accumulator drained. *)
Definition unlocked : KisTransformMask :=
  mask_with (Some unlockedParent) still allocated false.

(** In the middle of [recalculateStaticImage]. *)
Definition regenerating : KisTransformMask :=
  mask_with (Some unlockedParent) still allocated true.

(** After a regeneration: the cache is valid for [shift]. *)
Definition served : KisTransformMask :=
  mask_with (Some unlockedParent) still regenerated false.

(** Rendering an animation frame. *)
Definition externalFrame : KisTransformMask :=
  mask_with (Some unlockedParent) (mkParamsHolder (Some shift) true true)
    regenerated false.

(** [env3] after [mask0] rendered [painted] into the destination. *)
Definition env3_rendered : Env :=
  mkEnv [painted;
         mkPointDevice 1 0 [(mkQPoint 12 3, 7%nat); (mkQPoint 15 1, 9%nat)];
         blank]
        [CompressorStart; BusyProgressIndicatorUpdate].

Definition rendering : KisPerspectiveTransformWorker := mkWorker false (10, 0).

(** A store whose cache device (address 2) holds the picture, the same
    store after the picture was fetched into the destination, and [env0]
    after the cache device was allocated at address 1. *)
Definition env_cached : Env := mkEnv [painted; blank; painted] [].

Definition env_fetched : Env :=
  mkEnv [painted; painted; painted] [BusyProgressIndicatorUpdate].

Definition env_allocated : Env := mkEnv [painted; blank] [].

Definition requested : list QRect :=
  [QRect_xywh 0 0 4 4; QRect_null; QRect_xywh 10 10 2 2].

(** The bounds of the image the requests come from. *)
Definition imageBounds : QRect := QRect_xywh 0 0 100 100.

Definition view0 : ParentLayerView :=
  mkParentLayerView (fun rc => rc) (QRect_xywh 0 0 64 64) (QRect_xywh 0 0 10 10).

(** ** Masks over the safe transform of the specification *)

(** The worker is not used by the rectangle computations. *)
Definition rationalTransforms : TransformInterface :=
  safeTransforms (PD := pointDevices) (fun _ _ _ dst _ => dst).

Definition matrix_eqb (a b : AffineMatrix) : bool :=
  Qeq_bool (m11 a) (m11 b) && Qeq_bool (m12 a) (m12 b) &&
  Qeq_bool (m21 a) (m21 b) && Qeq_bool (m22 a) (m22 b) &&
  Qeq_bool (dx a) (dx b) && Qeq_bool (dy a) (dy b).

(** Parameters that are an affine matrix and nothing else: never hidden,
    always affine, compared coefficient by coefficient. *)
Definition matrixParams
    : @KisTransformMaskParamsInterface pointDevices rationalTransforms :=
  @Build_KisTransformMaskParamsInterface pointDevices rationalTransforms
    AffineMatrix
    (fun _ => false)
    (fun _ => true)
    (fun a b => match b with Some b => matrix_eqb a b | None => false end)
    (fun p => p)
    (fun _ rc => rc)
    (fun _ rc _ => rc)
    (fun _ _ dst _ => dst).

Definition identityMatrix : AffineMatrix := mkAffineMatrix 1 0 0 1 0 0.

(** An eighth of a turn, scaled by the square root of two: [(x, y)] goes
    to [(x + y, y - x)]. *)
Definition turnMatrix : AffineMatrix := mkAffineMatrix 1 (-1) 1 1 0 0.

(** A mask with the given matrix under [unlockedParent], whose bounds are
    [QRect(0, 0, 100, 100)], with the default margin of one half. *)
Definition matrixMask (T : AffineMatrix)
    : @KisTransformMask pointDevices rationalTransforms matrixParams :=
  @mkKisTransformMask pointDevices rationalTransforms matrixParams
    (Some unlockedParent) true
    (@mkWorker pointDevices rationalTransforms true T)
    (@mkParamsHolder pointDevices rationalTransforms matrixParams
       (Some T) false false)
    (@mkStaticCacheStorage pointDevices rationalTransforms matrixParams
       false false None None)
    false QRect_null (1 # 2)%Q false.

End Fixture.

(* ===================================================================== *)
(** * Reasoning about computations *)
(* ===================================================================== *)

Section Triples.
Context {PD : PaintDeviceInterface}.

Lemma results_ret {A} (a : A) (Q : A -> Prop) : Q a -> results (ret a) Q.
Proof. intros Hq e b e' Heq. inversion Heq; subst; exact Hq. Qed.

Lemma results_bind {A B} (m : M A) (k : A -> M B) (Q : B -> Prop) :
  (forall a, results (k a) Q) -> results (bind m k) Q.
Proof.
  intros Hk e b e' Heq. unfold bind in Heq.
  destruct (m e) as [[a e1]|] eqn:Hm; [|discriminate].
  exact (Hk a e1 b e' Heq).
Qed.

Lemma results_null_deref {A} (Q : A -> Prop) : results null_deref Q.
Proof. intros e a e' Heq. discriminate. Qed.

Lemma returns_ret {A} I (a : A) (Q : A -> Prop) : Q a -> returns I (ret a) Q.
Proof. intros Hq e He. exists a, e. auto. Qed.

Lemma returns_bind {A B} I (m : M A) (k : A -> M B) (P : A -> Prop)
    (Q : B -> Prop) :
  returns I m P -> (forall a, P a -> returns I (k a) Q) ->
  returns I (bind m k) Q.
Proof.
  intros Hm Hk e He. destruct (Hm e He) as (a & e1 & Heq & He1 & Hp).
  unfold bind. rewrite Heq. exact (Hk a Hp e1 He1).
Qed.

Lemma returns_weaken {A} I (m : M A) (P Q : A -> Prop) :
  returns I m P -> (forall a, P a -> Q a) -> returns I m Q.
Proof.
  intros Hm Hpq e He. destruct (Hm e He) as (a & e1 & Heq & He1 & Hp).
  exists a, e1. auto.
Qed.

Lemma returns_emit n ev : returns (cells n) (emit ev) (fun _ => True).
Proof. intros e He. exists tt, (mkEnv (heap e) (trace e ++ [ev])). auto. Qed.

Lemma returns_assert_noop n line c :
  returns (cells n) (assert_noop line c) (fun _ => True).
Proof.
  destruct c; simpl; [apply returns_ret; exact I | apply returns_emit].
Qed.

Lemma returns_deref n p : live n p -> returns (cells n) (deref p) (fun _ => True).
Proof.
  intros (a & -> & Ha) e He. unfold cells in He. unfold deref.
  destruct (lookup_lt_is_Some_2 (heap e) a) as [d Hd]; [lia|].
  rewrite Hd. exists d, e. auto.
Qed.

Lemma returns_update n p f :
  live n p -> returns (cells n) (update p f) (fun _ => True).
Proof.
  intros (a & -> & Ha) e He. unfold cells in He. unfold update.
  destruct (lookup_lt_is_Some_2 (heap e) a) as [d Hd]; [lia|].
  rewrite Hd. eexists tt, _. split; [reflexivity|]. split; [|exact I].
  unfold cells; simpl. rewrite length_insert. exact He.
Qed.

End Triples.

(* ===================================================================== *)
(** * StaticCacheStorage: validity, override, invariant *)
(* ===================================================================== *)

Section StaticCacheFacts.
Context {PD : PaintDeviceInterface} {TI : TransformInterface}
        {PI : KisTransformMaskParamsInterface}.

Implicit Types (s : StaticCacheStorage) (e : Env)
               (P : KisTransformMaskParamsInterfaceSP).

Lemma assert_noop_heap line c e :
  exists e', assert_noop line c e = Some (tt, e') /\ heap e' = heap e.
Proof.
  destruct c; simpl.
  - exists e. split; reflexivity.
  - eexists. split; reflexivity.
Qed.

Lemma assert_noop_true line e : assert_noop line true e = Some (tt, e).
Proof. reflexivity. Qed.

(** C1. For every parameter pointer [P] and every state of the cache and
    of the store, [isCacheValid(P)] returns, leaves the store as it is, and
    returns [true] exactly when the valid flag is set and the stored
    [paramsForStaticImage] is null or compares equal to [P]. *)
Theorem isCacheValid_true_iff s P e :
  exists b e',
    isCacheValid P s e = Some (b, e') /\ heap e' = heap e /\
    (b = true <-> staticCacheValid s = true /\ validFor_matches s P).
Proof.
  unfold isCacheValid, bind.
  destruct (assert_noop_heap 55
              (negb (staticCacheValid s) || sp_bool (paramsForStaticImage s)
               || staticCacheIsOverridden s) e) as (e1 & -> & Hheap).
  eexists _, e1. split; [reflexivity|]. split; [exact Hheap|].
  unfold validFor_matches.
  destruct (staticCacheValid s); simpl.
  - destruct (paramsForStaticImage s) as [q|] eqn:Hq.
    + split.
      * intros Hc. split; [reflexivity|]. right. exists q. auto.
      * intros [_ [Hn | (q' & Hq' & Hc)]]; [discriminate|].
        inversion Hq'; subst. exact Hc.
    + split; [intros _; auto | reflexivity].
  - split; [discriminate | intros [Hv _]; discriminate].
Qed.


Lemma update_live (p : nat) f d e :
  heap e !! p = Some d ->
  update (Some p) f e = Some (tt, mkEnv (<[p := f d]> (heap e)) (trace e)).
Proof. intros Hd. unfold update. rewrite Hd. reflexivity. Qed.

Lemma deref_live (p : nat) d e :
  heap e !! p = Some d -> deref (Some p) e = Some (d, e).
Proof. intros Hd. unfold deref. rewrite Hd. reflexivity. Qed.

Lemma lookup_insert_same (h : list KisPaintDevice) (c : nat) d v :
  h !! c = Some d -> <[c := v]> h !! c = Some v.
Proof.
  intros Hd. apply list_lookup_insert_eq. exact (lookup_lt_Some _ _ _ Hd).
Qed.

(** C4 (amended). On a cache whose device has been allocated,
    [overrideStaticCacheDevice(dev)] returns with both flags equal to
    [bool(dev)] and [paramsForStaticImage] dropped; the cache device is the
    same device, cleared and, for a non-null [dev] other than the cache
    device itself, overwritten by a copy of the whole extent of [dev]; no
    other device changes and no assertion fails.  After
    [overrideStaticCacheDevice(null)], [isCacheValid] and
    [isCacheOverridden] both return [false]. *)
Theorem overrideStaticCacheDevice_allocated s e (c : nat) cv dev :
  staticCacheDevice s = Some c ->
  heap e !! c = Some cv ->
  (forall d : nat, dev = Some d -> is_Some (heap e !! d)) ->
  exists s' e',
    overrideStaticCacheDevice dev s e = Some (s', e') /\
    s' = mkStaticCacheStorage (sp_bool dev) (sp_bool dev) (Some c) None /\
    trace e' = trace e /\
    (forall a : nat, a <> c -> heap e' !! a = heap e !! a) /\
    (dev = None -> heap e' !! c = Some (clear cv)) /\
    (forall (d : nat) dv, dev = Some d -> d <> c -> heap e !! d = Some dv ->
       heap e' !! c =
       Some (copyAreaOptimized (topLeft (extent dv)) dv (clear cv) (extent dv))) /\
    (dev = None -> forall P,
       isCacheValid P s' e' = Some (false, e') /\
       isCacheOverridden s' e' = Some (false, e')).
Proof.
  intros Hc Hcv Hdev. unfold overrideStaticCacheDevice. rewrite Hc.
  unfold bind at 1. unfold bind at 1.
  rewrite (update_live c clear cv e Hcv).
  set (e1 := mkEnv (<[c := clear cv]> (heap e)) (trace e)).
  assert (Hc1 : heap e1 !! c = Some (clear cv))
    by (apply (lookup_insert_same _ _ cv); exact Hcv).
  destruct dev as [d|].
  - destruct (Hdev d eq_refl) as [dv Hdv].
    assert (Hd1 : exists src, heap e1 !! d = Some src /\ (d <> c -> src = dv)).
    { destruct (decide (d = c)) as [->|Hne].
      - exists (clear cv). split; [exact Hc1 | congruence].
      - exists dv. split; [|reflexivity]. simpl.
        rewrite list_lookup_insert_ne; [exact Hdv | congruence]. }
    destruct Hd1 as (src & Hsrc & Hsame).
    unfold bind. rewrite (deref_live d src e1 Hsrc).
    rewrite (update_live c _ (clear cv) e1 Hc1).
    eexists _, _. split; [reflexivity|]. simpl.
    split; [reflexivity|]. split; [reflexivity|].
    split; [|split; [discriminate|split; [|discriminate]]].
    + intros a Ha. rewrite !list_lookup_insert_ne by congruence. reflexivity.
    + intros d' dv' [= <-] Hne Hdv'. rewrite (Hsame Hne).
      assert (dv' = dv) by congruence. subst dv'.
      apply (lookup_insert_same _ _ (clear cv)). exact Hc1.
  - unfold bind, ret. eexists _, _. split; [reflexivity|]. simpl.
    split; [reflexivity|]. split; [reflexivity|].
    split; [|split; [|split]].
    + intros a Ha. rewrite list_lookup_insert_ne by congruence. reflexivity.
    + intros _. exact Hc1.
    + intros d dv Hd. discriminate.
    + intros _ P. split; reflexivity.
Qed.


Lemma results_assert_then {A} line c (m : M A) (Q : A -> Prop) :
  results m Q -> results (assert_noop line c >> m) Q.
Proof. intros Hm. apply results_bind. intros _. exact Hm. Qed.

Lemma assert_noop_returns line c e : is_Some (assert_noop line c e).
Proof. destruct c; simpl; eexists; reflexivity. Qed.

Lemma perform_results op s :
  overridden_implies_valid s ->
  (op = InvalidateDeviceCache -> staticCacheIsOverridden s = false) ->
  results (perform op s) overridden_implies_valid.
Proof.
  intros Hinv Hpre. destruct op as [P| |cs b|P|dev|]; simpl.
  - apply results_bind. intros _. apply results_ret. exact Hinv.
  - apply results_bind. intros _. apply results_ret. exact Hinv.
  - unfold lazyAllocateStaticCache. apply results_bind. intros [|].
    + apply results_bind. intros p. apply results_bind. intros _.
      apply results_ret. exact Hinv.
    + apply results_ret. exact Hinv.
  - unfold setDeviceCacheValid. apply results_assert_then, results_ret.
    intros _. reflexivity.
  - unfold overrideStaticCacheDevice. destruct (staticCacheDevice s).
    + apply results_bind. intros _. apply results_bind. intros _.
      apply results_ret. unfold overridden_implies_valid. simpl. auto.
    + apply results_bind. intros _. apply results_ret. exact Hinv.
  - unfold invalidateDeviceCache. apply results_assert_then, results_ret.
    unfold overridden_implies_valid. simpl. rewrite (Hpre eq_refl).
    discriminate.
Qed.

Lemma overrideStaticCacheDevice_returns dev s e :
  null_or_live e (staticCacheDevice s) -> null_or_live e dev ->
  is_Some (overrideStaticCacheDevice dev s e).
Proof.
  intros Hc Hdev. unfold overrideStaticCacheDevice.
  destruct (staticCacheDevice s) as [c|]; [|eexists; reflexivity].
  destruct Hc as [cv Hcv].
  unfold bind at 1. unfold bind at 1.
  rewrite (update_live c clear cv e Hcv).
  set (e1 := mkEnv (<[c := clear cv]> (heap e)) (trace e)).
  assert (Hc1 : heap e1 !! c = Some (clear cv))
    by (apply (lookup_insert_same _ _ cv); exact Hcv).
  destruct dev as [d|]; [|eexists; reflexivity].
  destruct Hdev as [dv Hdv].
  destruct (lookup_lt_is_Some_2 (heap e1) d) as [src Hsrc].
  { simpl. rewrite length_insert. exact (lookup_lt_Some _ _ _ Hdv). }
  unfold bind. rewrite (deref_live d src e1 Hsrc).
  rewrite (update_live c _ (clear cv) e1 Hc1). eexists; reflexivity.
Qed.

Lemma perform_returns op s e :
  null_or_live e (staticCacheDevice s) ->
  (forall dev, op = OverrideStaticCacheDevice dev -> null_or_live e dev) ->
  is_Some (perform op s e).
Proof.
  intros Hc Hdev. destruct op as [P| |cs b|P|dev|]; simpl.
  - unfold isCacheValid, bind.
    destruct (assert_noop_heap 55
      (negb (staticCacheValid s) || sp_bool (paramsForStaticImage s)
       || staticCacheIsOverridden s) e) as (e1 & -> & _).
    eexists; reflexivity.
  - unfold isCacheOverridden, bind.
    destruct (assert_noop_heap 67
      (negb (staticCacheIsOverridden s) || staticCacheValid s) e)
      as (e1 & -> & _).
    eexists; reflexivity.
  - unfold lazyAllocateStaticCache, bind.
    assert (Hfresh : forall e0 : Env,
      is_Some (match alloc (newPaintDevice cs) e0 with
               | Some (p, e1) =>
                   match update p (setDefaultBounds b) e1 with
                   | Some (_, e2) =>
                       ret (mkStaticCacheStorage (staticCacheIsOverridden s)
                              (staticCacheValid s) p (paramsForStaticImage s)) e2
                   | None => None
                   end
               | None => None
               end)).
    { intros e0. unfold alloc, update. simpl.
      rewrite list_lookup_middle by reflexivity. eexists; reflexivity. }
    destruct (staticCacheDevice s) as [c|]; simpl in *.
    + destruct Hc as [d Hd]. rewrite Hd.
      destruct (negb (colorSpaceEq (colorSpace d) cs));
        [apply Hfresh | eexists; reflexivity].
    + apply Hfresh.
  - unfold setDeviceCacheValid, bind; simpl.
    destruct (negb (staticCacheIsOverridden s)); simpl; eexists; reflexivity.
  - specialize (Hdev dev eq_refl).
    apply overrideStaticCacheDevice_returns; assumption.
  - unfold invalidateDeviceCache, bind; simpl.
    destruct (negb (staticCacheIsOverridden s)); simpl; eexists; reflexivity.
Qed.

(** C6 (amended). Every operation of [StaticCacheStorage] keeps the
    invariant "overridden implies valid", provided [invalidateDeviceCache] is
    applied to a cache that is not overridden (the condition its assertion
    names): whatever state an operation leaves satisfies the invariant, and
    with live pointers every operation does leave a state. *)
Theorem perform_preserves_invariant op s e :
  overridden_implies_valid s ->
  (op = InvalidateDeviceCache -> staticCacheIsOverridden s = false) ->
  (forall s' e', perform op s e = Some (s', e') -> overridden_implies_valid s') /\
  (null_or_live e (staticCacheDevice s) ->
   (forall dev, op = OverrideStaticCacheDevice dev -> null_or_live e dev) ->
   exists s' e', perform op s e = Some (s', e')).
Proof.
  intros Hinv Hpre. split.
  - intros s' e' Hrun. exact (perform_results op s Hinv Hpre e s' e' Hrun).
  - intros Hc Hdev. destruct (perform_returns op s e Hc Hdev) as [[s' e'] Hrun].
    exists s', e'. exact Hrun.
Qed.

End StaticCacheFacts.

(* ===================================================================== *)
(** * KisTransformMask: rectangles, scheduling, rendering *)
(* ===================================================================== *)

Section TransformMaskFacts.
Context {PD : PaintDeviceInterface} {TI : TransformInterface}
        {PI : KisTransformMaskParamsInterface}.

Implicit Types (m : KisTransformMask) (e : Env) (rc rect : QRect)
               (src dst : KisPaintDeviceSP).

(** C5. For every node kind (pass-through node, transform mask with any
    parameters and with or without a parent) and every position, an empty
    rectangle comes back unchanged from [changeRect] and from [needRect]. *)
Theorem empty_rect_unchanged (k : NodeKind) rect (pos : PositionToFilthy) :
  isEmpty rect = true ->
  nodeChangeRect k rect pos = Some rect /\ nodeNeedRect k rect pos = Some rect.
Proof.
  intros Hempty. destruct k as [|m]; simpl.
  - split; reflexivity.
  - unfold changeRect, needRect. rewrite Hempty. split; reflexivity.
Qed.

(** C9. When the parent layer's image reports [locked()],
    [startAsyncRegenerationJob] submits no job: it restarts the update
    signal compressor and nothing else happens; the mask, the accumulated
    extra rectangle included, and the store are as before. *)
Theorem startAsyncRegenerationJob_locked m p img e :
  parent m = Some p -> isKisLayer p = true -> image p = Some img ->
  locked img = true ->
  startAsyncRegenerationJob m e
  = Some (m, mkEnv (heap e) (trace e ++ [CompressorStart])).
Proof.
  intros Hp Hlayer Himg Hlocked. unfold startAsyncRegenerationJob.
  rewrite Hp, Hlayer, Himg, Hlocked. reflexivity.
Qed.

Lemma same_node_refl m : same_node m m.
Proof. repeat split. Qed.

Lemma returns_isCacheValid n P s :
  returns (cells n) (isCacheValid P s) (fun _ => True).
Proof.
  unfold isCacheValid. eapply returns_bind; [apply returns_assert_noop|].
  intros _ _. apply returns_ret. exact I.
Qed.

Lemma returns_isCacheOverridden n s :
  returns (cells n) (isCacheOverridden s) (fun _ => True).
Proof.
  unfold isCacheOverridden. eapply returns_bind; [apply returns_assert_noop|].
  intros _ _. apply returns_ret. exact I.
Qed.

Lemma returns_invalidateDeviceCache n s :
  returns (cells n) (invalidateDeviceCache s)
    (fun s' => device s' = device s).
Proof.
  unfold invalidateDeviceCache. eapply returns_bind; [apply returns_assert_noop|].
  intros _ _. apply returns_ret. reflexivity.
Qed.

Lemma returns_setDeviceCacheValid n P s :
  returns (cells n) (setDeviceCacheValid P s)
    (fun s' => device s' = device s).
Proof.
  unfold setDeviceCacheValid. eapply returns_bind; [apply returns_assert_noop|].
  intros _ _. apply returns_ret. reflexivity.
Qed.

Lemma returns_runWorker n params src dst rc m :
  live n src -> live n dst ->
  returns (cells n) (runWorker params src dst rc m) (same_node m).
Proof.
  intros Hsrc Hdst. unfold runWorker.
  eapply returns_bind; [apply returns_deref; exact Hsrc|]. intros s _.
  eapply returns_bind; [apply returns_update; exact Hdst|]. intros _ _.
  apply returns_ret. repeat split.
Qed.

Lemma returns_needsStaticImageUpdate n P maskPos flags m :
  returns (cells n) (needsStaticImageUpdate P maskPos flags m) (fun _ => True).
Proof.
  unfold needsStaticImageUpdate.
  eapply returns_bind; [apply returns_isCacheOverridden|]. intros [|] _.
  - apply returns_ret. exact I.
  - destruct (recalculatingStaticImage m); [apply returns_ret; exact I|].
    eapply returns_bind with (P := fun _ => True).
    + destruct maskPos; try (apply returns_ret; exact I).
      eapply returns_bind; [apply returns_isCacheValid|]. intros v _.
      apply returns_ret. exact I.
    + intros [|] _; apply returns_ret; exact I.
Qed.


Lemma decorateRect_results src dst rc maskPos flags m :
  results (decorateRect src dst rc maskPos flags m) (fun r => fst r = rc).
Proof.
  unfold decorateRect.
  destruct (bakeIntoParams (paramsHolder m)) as [params|];
    [|apply results_null_deref].
  destruct (isHidden params); [apply results_ret; reflexivity|].
  apply results_bind. intros _.
  destruct (externalFrameActive (paramsHolder m)).
  - destruct (isAffine params).
    + apply results_bind. intros m1. apply results_ret. reflexivity.
    + apply results_ret. reflexivity.
  - apply results_bind. intros trigger.
    apply results_bind. intros m1.
    apply results_bind. intros m2.
    apply results_bind. intros _.
    destruct (busyProgressIndicator m2).
    + apply results_bind. intros _. apply results_ret. reflexivity.
    + apply results_null_deref.
Qed.

Lemma decorateRect_returns n src dst rc maskPos flags m :
  live n src -> live n dst -> live n (device (staticCache m)) ->
  is_Some (bakeIntoParams (paramsHolder m)) ->
  busyProgressIndicator m = true ->
  returns (cells n) (decorateRect src dst rc maskPos flags m)
    (fun r => fst r = rc).
Proof.
  intros Hsrc Hdst Hcache [params Hparams] Hbusy.
  unfold decorateRect. rewrite Hparams.
  destruct (isHidden params); [apply returns_ret; reflexivity|].
  eapply returns_bind; [apply returns_assert_noop|]. intros _ _.
  destruct (externalFrameActive (paramsHolder m)).
  { destruct (isAffine params); [|apply returns_ret; reflexivity].
    eapply returns_bind; [apply returns_runWorker; assumption|].
    intros m1 _. apply returns_ret. reflexivity. }
  eapply returns_bind; [apply returns_needsStaticImageUpdate|].
  intros trigger _.
  eapply returns_bind with (P := same_node m).
  { destruct trigger; [|apply returns_ret, same_node_refl].
    eapply returns_bind with (P := fun _ => True).
    { destruct (testingInterface m);
        [apply returns_emit | apply returns_ret; exact I]. }
    intros _ _.
    eapply returns_bind; [apply returns_invalidateDeviceCache|].
    intros c Hc.
    eapply returns_bind; [apply returns_emit|]. intros _ _.
    apply returns_ret. repeat split. exact Hc. }
  intros m1 (Hb1 & Hph1 & Hrec1 & Hdev1).
  assert (Hcache1 : live n (device (staticCache m1))) by (rewrite Hdev1; exact Hcache).
  eapply returns_bind with (P := same_node m1).
  { destruct (recalculatingStaticImage m1).
    - eapply returns_bind; [apply returns_isCacheValid|]. intros v _.
      eapply returns_bind; [apply returns_assert_noop|]. intros _ _.
      cbv zeta.
      eapply returns_bind; [apply returns_update; exact Hcache1|]. intros _ _.
      eapply returns_bind; [apply returns_deref; exact Hsrc|]. intros s _.
      eapply returns_bind; [apply returns_update; exact Hcache1|]. intros _ _.
      eapply returns_bind; [apply returns_deref; exact Hcache1|]. intros cached _.
      eapply returns_bind; [apply returns_update; exact Hdst|]. intros _ _.
      eapply returns_bind; [apply returns_setDeviceCacheValid|]. intros c Hc.
      apply returns_ret. repeat split. exact Hc.
    - eapply returns_bind with (P := fun _ => True).
      { destruct (isAffine params); [|apply returns_ret; exact I].
        eapply returns_bind; [apply returns_isCacheValid|]. intros v _.
        apply returns_ret. exact I. }
      intros [|] _; [apply returns_runWorker; assumption|].
      eapply returns_bind; [apply returns_isCacheValid|].
      intros [|] _; [|apply returns_ret, same_node_refl].
      eapply returns_bind; [apply returns_deref; exact Hcache1|]. intros cached _.
      eapply returns_bind; [apply returns_update; exact Hdst|]. intros _ _.
      apply returns_ret, same_node_refl. }
  intros m2 (Hb2 & _).
  eapply returns_bind; [apply returns_assert_noop|]. intros _ _.
  rewrite Hb2, Hb1, Hbusy.
  eapply returns_bind; [apply returns_emit|]. intros _ _.
  apply returns_ret. reflexivity.
Qed.

(** C10. [decorateRect] returns its input rectangle [rc] on every path:
    whatever it returns is [rc], for all devices, positions, flags and mask
    states; and it does return when the pointers it dereferences (source,
    destination and cache device, the baked parameters, the progress
    indicator) are not null. *)
Theorem decorateRect_returns_rc src dst rc (maskPos : PositionToFilthy)
    (flags : KisRenderPassFlags) m e :
  (forall r m' e',
     decorateRect src dst rc maskPos flags m e = Some ((r, m'), e') -> r = rc) /\
  (forall n,
     cells n e -> live n src -> live n dst -> live n (device (staticCache m)) ->
     is_Some (bakeIntoParams (paramsHolder m)) ->
     busyProgressIndicator m = true ->
     exists m' e',
       decorateRect src dst rc maskPos flags m e = Some ((rc, m'), e')).
Proof.
  split.
  - intros r m' e' Hrun.
    exact (decorateRect_results src dst rc maskPos flags m e (r, m') e' Hrun).
  - intros n He Hsrc Hdst Hcache Hparams Hbusy.
    destruct (decorateRect_returns n src dst rc maskPos flags m
                Hsrc Hdst Hcache Hparams Hbusy e He)
      as ([r m'] & e' & Hrun & _ & Hr).
    simpl in Hr. subst r. exists m', e'. exact Hrun.
Qed.

End TransformMaskFacts.

(* ===================================================================== *)
(** * KisPaintOpPresetUpdateProxy: postponed notifications *)
(* ===================================================================== *)

Section UpdateProxyFacts.
Import UpdateProxy.

Implicit Types (d : Private) (n N : nat).

Lemma int_wrap_in_range z :
  -2147483648 <= z <= INT_MAX -> int_wrap z = z.
Proof.
  unfold int_wrap, INT_MAX. intros Hz.
  rewrite Z.mod_small by lia. lia.
Qed.

Lemma calls_app (cs1 cs2 : list Call) d :
  calls (cs1 ++ cs2) d =
  let '(d1, out1) := calls cs1 d in
  let '(d2, out2) := calls cs2 d1 in
  (d2, out1 ++ out2).
Proof.
  revert d. induction cs1 as [|c cs1 IH]; intros d; simpl.
  - destruct (calls cs2 d) as [d2 out2]. reflexivity.
  - destruct (call c d) as [d1 out1]. rewrite IH.
    destruct (calls cs1 d1) as [d1' out1'].
    destruct (calls cs2 d1') as [d2 out2].
    rewrite app_assoc. reflexivity.
Qed.

(** While postponed, notifications are only counted. *)
Lemma notify_while_postponed n d :
  updatesBlocked d <> 0 ->
  0 <= numUpdatesWhileBlocked d ->
  numUpdatesWhileBlocked d + Z.of_nat n <= INT_MAX ->
  calls (replicate n CallNotify) d
  = (mkPrivate (updatesBlocked d) (numUpdatesWhileBlocked d + Z.of_nat n), []).
Proof.
  revert d. induction n as [|n IH]; intros d Hblocked Hlo Hhi.
  - simpl. rewrite Z.add_0_r. destruct d; reflexivity.
  - cbn [replicate calls call]. unfold notifySettingsChanged.
    destruct (Z.eqb_spec (updatesBlocked d) 0) as [Heq|_]; [contradiction|].
    cbn [negb].
    rewrite int_wrap_in_range by (unfold INT_MAX in *; lia).
    rewrite IH; cbn [updatesBlocked numUpdatesWhileBlocked];
      [|exact Hblocked|lia|lia].
    f_equal. f_equal. lia.
Qed.

(** C3 (amended).  Let the proxy be postponed once, with
    [numUpdatesWhileBlocked] updates already held back (compressor timeouts
    or earlier notifications that arrived during the postponement), and let
    N further calls of [notifySettingsChanged] follow, the total within the
    range of the [int] counter.  The [unpostponeSettingsChanges] that ends
    the postponement then emits the early warning, the uncompressed signal
    and [sigSettingsChanged], once each and in this order, exactly when
    something was held back, that is when [numUpdatesWhileBlocked + N] is
    not zero: for every N >= 1, and for N = 0 when a timeout was held back.
    It emits nothing when nothing was held back.  In both cases the
    compressor is never started and both counters are left at zero. *)
Theorem postponed_notifications_coalesce N d :
  updatesBlocked d = 1 ->
  0 <= numUpdatesWhileBlocked d ->
  numUpdatesWhileBlocked d + Z.of_nat N <= INT_MAX ->
  let held := numUpdatesWhileBlocked d + Z.of_nat N in
  let out := snd (calls (replicate N CallNotify ++ [CallUnpostpone]) d) in
  calls (replicate N CallNotify ++ [CallUnpostpone]) d
  = (initial,
     if held =? 0 then []
     else [sigSettingsChangedUncompressedEarlyWarning;
           sigSettingsChangedUncompressed;
           sigSettingsChanged]) /\
  (held <> 0 ->
   occurrences sigSettingsChangedUncompressedEarlyWarning out = 1%nat /\
   occurrences sigSettingsChangedUncompressed out = 1%nat /\
   occurrences sigSettingsChanged out = 1%nat) /\
  (held = 0 -> out = []) /\
  occurrences updatesCompressorStart out = 0%nat.
Proof.
  intros Hblocked Hlo Hmax held out.
  assert (Hrun : calls (replicate N CallNotify ++ [CallUnpostpone]) d
                 = (initial,
                    if held =? 0 then []
                    else [sigSettingsChangedUncompressedEarlyWarning;
                          sigSettingsChangedUncompressed;
                          sigSettingsChanged])).
  { rewrite calls_app, notify_while_postponed by lia.
    cbn [calls call]. unfold unpostponeSettingsChanges.
    cbn [updatesBlocked numUpdatesWhileBlocked]. rewrite Hblocked.
    change (int_wrap (1 - 1)) with 0. cbn [Z.eqb andb]. fold held.
    destruct (Z.eqb_spec held 0) as [Hz|_]; cbn [negb].
    - rewrite Hz. reflexivity.
    - reflexivity. }
  subst out. rewrite Hrun. cbn [snd].
  destruct (Z.eqb_spec held 0) as [Hz|Hnz].
  - split; [reflexivity|]. split; [intros Hn; contradiction|].
    split; reflexivity.
  - split; [reflexivity|]. split; [intros _; repeat split|].
    split; [intros Hz; contradiction | reflexivity].
Qed.

End UpdateProxyFacts.

(* ===================================================================== *)
(** * KisImageSignalRouter: dispatch and the reselection filter *)
(* ===================================================================== *)

Section SignalRouterFacts.
Import SignalRouter.
Context {QPointF KoColorProfile KoColorSpace KisNode Resolution : Type}.

Abbreviation SignalType :=
  (@KisImageSignalType QPointF KisNode).
Abbreviation Image :=
  (@KisImageWSP KoColorProfile KoColorSpace Resolution).

(** C7. [emitNotification] calls [slotNotification] directly exactly for
    [LayersChangedSignal] and [NodeReselectionRequestSignal]; every other
    kind is emitted as the queued [sigNotification], and nothing else is
    done. *)
Theorem emitNotification_direct_iff (m_image : Image) (type : SignalType) :
  (emitNotification_dispatch type = DirectCall type <-> ordering_critical type) /\
  (emitNotification_dispatch type = QueuedSignal type <-> ~ ordering_critical type) /\
  emitNotification m_image type
  = match id type with
    | LayersChangedSignal | NodeReselectionRequestSignal =>
        slotNotification m_image type
    | _ => [sigNotification type]
    end.
Proof.
  unfold ordering_critical, emitNotification, emitNotification_dispatch.
  destruct (id type); repeat split;
    try (intros _; auto; fail);
    try discriminate;
    try (intros [Hk|Hk]; discriminate);
    try (intros Hn; exfalso; apply Hn; auto; fail);
    try (intros _ [Hk|Hk]; discriminate).
Qed.


(** C8 (amended). For a [NodeReselectionRequestSignal]: with a null new
    active node and an empty list of new selected nodes the router emits
    nothing; with either of them non-empty and the router's image alive it
    emits exactly [sigRequestNodeReselection] with that node and that list;
    once the image is gone it emits nothing.  [emitNotification] does the
    same, since it calls [slotNotification] directly for this kind. *)
Theorem reselection_request_delivery (m_image : Image) (type : SignalType) :
  id type = NodeReselectionRequestSignal ->
  let node := newActiveNode (nodeReselectionSignal type) in
  let nodes := newSelectedNodes (nodeReselectionSignal type) in
  emitNotification m_image type = slotNotification m_image type /\
  (node = None /\ nodes = [] -> slotNotification m_image type = []) /\
  (node <> None \/ nodes <> [] ->
   forall image, m_image = Some image ->
     slotNotification m_image type = [sigRequestNodeReselection node nodes]) /\
  (m_image = None -> slotNotification m_image type = []).
Proof.
  intros Hid node nodes. split.
  { unfold emitNotification, emitNotification_dispatch. rewrite Hid.
    reflexivity. }
  unfold slotNotification. rewrite Hid. fold node nodes.
  split; [|split].
  - intros [Hnode Hnodes]. rewrite Hnode, Hnodes.
    destruct m_image; reflexivity.
  - intros Hsome image ->.
    destruct node as [k|]; [reflexivity|].
    destruct nodes as [|k ks]; [|reflexivity].
    destruct Hsome as [Hn|Hn]; contradiction.
  - intros ->. reflexivity.
Qed.

End SignalRouterFacts.

(* ===================================================================== *)
(** * The model at work on concrete inputs *)
(* ===================================================================== *)

Section Examples.
Import Fixture.

(** ** StaticCacheStorage *)

(** C4, as stated, fails: before the cache device is allocated,
    [overrideStaticCacheDevice(dev)] with a non-null [dev] hits the guard
    and returns at once; the overridden flag stays [false], not
    [bool(dev)]. *)
Lemma override_before_allocation_is_ignored :
  exists e',
    overrideStaticCacheDevice (Some 0%nat) StaticCache.initial env0
    = Some (StaticCache.initial, e') /\
    trace e' = [SafeAssertFailed 97] /\
    staticCacheIsOverridden StaticCache.initial <> sp_bool (Some 0%nat).
Proof.
  eexists. split; [reflexivity|]. split; [reflexivity|]. discriminate.
Qed.

(** C6, as stated, fails: allocate the cache, override it with the device
    at address 0, then call [invalidateDeviceCache].  The state before the
    last call satisfies the invariant; the state after it is overridden and
    not valid. *)
Lemma invalidate_overridden_breaks_invariant :
  exists s1 e1 s2 e2 s3 e3,
    lazyAllocateStaticCache 1%nat 0%nat StaticCache.initial env0 = Some (s1, e1) /\
    overrideStaticCacheDevice (Some 0%nat) s1 e1 = Some (s2, e2) /\
    overridden_implies_valid s2 /\
    perform InvalidateDeviceCache s2 e2 = Some (s3, e3) /\
    staticCacheIsOverridden s3 = true /\ staticCacheValid s3 = false /\
    ~ overridden_implies_valid s3.
Proof.
  do 6 eexists.
  split; [reflexivity|]. split; [reflexivity|].
  split; [intros _; reflexivity|].
  split; [reflexivity|]. split; [reflexivity|]. split; [reflexivity|].
  intros Hinv. specialize (Hinv eq_refl). discriminate.
Qed.


Lemma overrideStaticCacheDevice_allocated_witness :
  exists s' e',
    overrideStaticCacheDevice (Some 0%nat) allocated env3 = Some (s', e') /\
    staticCacheIsOverridden s' = true /\ staticCacheValid s' = true /\
    paramsForStaticImage s' = None /\
    heap e' !! 2%nat = Some painted.
Proof.
  destruct (overrideStaticCacheDevice_allocated allocated env3 2 blank (Some 0%nat))
    as (s' & e' & Hrun & Hs & _ & _ & _ & Hcopy & _).
  - reflexivity.
  - reflexivity.
  - intros d Hd. injection Hd as <-. exists painted. reflexivity.
  - exists s', e'. split; [exact Hrun|]. subst s'.
    split; [reflexivity|]. split; [reflexivity|]. split; [reflexivity|].
    refine (Hcopy 0%nat painted eq_refl _ eq_refl). discriminate.
Defined.

Lemma perform_preserves_invariant_witness :
  overridden_implies_valid regenerated /\
  exists s' e',
    perform InvalidateDeviceCache regenerated env3 = Some (s', e') /\
    overridden_implies_valid s'.
Proof.
  assert (Hinv : overridden_implies_valid regenerated) by (intros H; discriminate H).
  split; [exact Hinv|].
  destruct (perform_preserves_invariant InvalidateDeviceCache regenerated env3 Hinv)
    as [Hkeep Hruns].
  - intros _. reflexivity.
  - destruct Hruns as (s' & e' & Hrun).
    + exists blank. reflexivity.
    + intros dev Hdev. discriminate Hdev.
    + exists s', e'. split; [exact Hrun | exact (Hkeep s' e' Hrun)].
Defined.

(** ** KisTransformMask *)

Lemma empty_rect_unchanged_witness :
  isEmpty QRect_null = true /\
  nodeChangeRect (TransformMaskNode mask0) QRect_null N_BELOW_FILTHY
  = Some QRect_null /\
  nodeNeedRect (TransformMaskNode mask0) QRect_null N_BELOW_FILTHY
  = Some QRect_null.
Proof.
  split; [reflexivity|].
  apply (empty_rect_unchanged (TransformMaskNode mask0) QRect_null N_BELOW_FILTHY).
  reflexivity.
Defined.

(** A rectangle that is not empty does move: the short cut is the only
    reason an empty one stays. *)
Example changeRect_translates :
  changeRect (QRect_xywh 0 0 4 4) N_FILTHY mask0 = Some (QRect_xywh 10 0 4 4) /\
  needRect (QRect_xywh 10 0 4 4) N_FILTHY mask0 = Some (mkQRect (-1) (-1) 4 4).
Proof. split; reflexivity. Qed.

Lemma startAsyncRegenerationJob_locked_witness :
  locked (mkKisImage true) = true /\
  startAsyncRegenerationJob mask0 env3
  = Some (mask0, mkEnv (heap env3) [CompressorStart]).
Proof.
  split; [reflexivity|].
  apply (startAsyncRegenerationJob_locked mask0 lockedParent (mkKisImage true) env3);
    reflexivity.
Defined.

(** With the image unlocked the job is submitted with the accumulated
    rectangle, which is reset. *)
Example startAsyncRegenerationJob_unlocked :
  let unlocked := mkParentNode true (Some (mkKisImage false))
                    (QRect_xywh 0 0 100 100) (QRect_xywh 0 0 64 64) in
  let m := mkKisTransformMask (Some unlocked) true (mkWorker true (0, 0))
             (mkParamsHolder (Some shift) false false) allocated
             false (QRect_xywh 1 1 4 4) 0 false in
  startAsyncRegenerationJob m env3
  = Some (set_extraUpdateRect QRect_null m,
          mkEnv (heap env3) [AddSpontaneousJob (QRect_xywh 1 1 4 4)]).
Proof. reflexivity. Qed.

(** Forcing a regeneration while the cache is overridden trips the
    assertion of [invalidateDeviceCache] and leaves the cache overridden but
    not valid. *)
Example forceStart_on_overridden_cache :
  let overridden := mkStaticCacheStorage true true (Some 2%nat) None in
  let m := set_staticCache overridden mask0 in
  forceStartAsyncRegenerationJob m env3
  = Some (set_staticCache (mkStaticCacheStorage true false (Some 2%nat) None) m,
          mkEnv (heap env3) [SafeAssertFailed 117; CompressorStop; CompressorStart]).
Proof. reflexivity. Qed.

Lemma decorateRect_returns_rc_witness :
  exists m' e',
    decorateRect (Some 0%nat) (Some 1%nat) (QRect_xywh 0 0 20 20) N_FILTHY [] mask0 env3
    = Some ((QRect_xywh 0 0 20 20, m'), e').
Proof.
  apply (proj2 (decorateRect_returns_rc (Some 0%nat) (Some 1%nat)
                  (QRect_xywh 0 0 20 20) N_FILTHY [] mask0 env3) 3%nat).
  - unfold cells. simpl. lia.
  - exists 0%nat. split; [reflexivity | lia].
  - exists 1%nat. split; [reflexivity | lia].
  - exists 2%nat. split; [reflexivity | lia].
  - exists shift. reflexivity.
  - reflexivity.
Defined.

(** The same call, evaluated: the filthy position invalidates the cache and
    restarts the compressor, the affine parameters are rendered through the
    worker into the destination, and the rectangle comes back as given. *)
Example decorateRect_partial_run :
  decorateRect (Some 0%nat) (Some 1%nat) (QRect_xywh 0 0 20 20) N_FILTHY [] mask0 env3
  = Some ((QRect_xywh 0 0 20 20, set_worker (mkWorker false (10, 0)) mask0),
          mkEnv [painted;
                 mkPointDevice 1 0 [(mkQPoint 12 3, 7%nat); (mkQPoint 15 1, 9%nat)];
                 blank]
                [CompressorStart; BusyProgressIndicatorUpdate]).
Proof. reflexivity. Qed.


(** ** KisPaintOpPresetUpdateProxy *)

(** C3, as stated, fails at N = 0: a postponement that saw no
    notification ends silently; none of the three signals is emitted. *)
Lemma unpostpone_without_notification_is_silent :
  let d := fst (UpdateProxy.postponeSettingsChanges UpdateProxy.initial) in
  let out := snd (UpdateProxy.calls
                    (replicate 0 UpdateProxy.CallNotify ++ [UpdateProxy.CallUnpostpone])
                    d) in
  UpdateProxy.updatesBlocked d = 1 /\
  out = [] /\
  UpdateProxy.occurrences UpdateProxy.sigSettingsChanged out <> 1%nat.
Proof.
  cbv zeta. split; [reflexivity|]. split; [reflexivity|]. discriminate.
Qed.

Lemma postponed_notifications_coalesce_witness :
  UpdateProxy.calls
    (replicate 5 UpdateProxy.CallNotify ++ [UpdateProxy.CallUnpostpone])
    (UpdateProxy.mkPrivate 1 0)
  = (UpdateProxy.initial,
     [UpdateProxy.sigSettingsChangedUncompressedEarlyWarning;
      UpdateProxy.sigSettingsChangedUncompressed;
      UpdateProxy.sigSettingsChanged]) /\
  UpdateProxy.calls
    (replicate 0 UpdateProxy.CallNotify ++ [UpdateProxy.CallUnpostpone])
    (fst (UpdateProxy.calls [UpdateProxy.CallPostpone; UpdateProxy.CallTimeout]
            UpdateProxy.initial))
  = (UpdateProxy.initial,
     [UpdateProxy.sigSettingsChangedUncompressedEarlyWarning;
      UpdateProxy.sigSettingsChangedUncompressed;
      UpdateProxy.sigSettingsChanged]).
Proof.
  assert (Hmax : 0 + Z.of_nat 5 <= UpdateProxy.INT_MAX)
    by (unfold UpdateProxy.INT_MAX; lia).
  assert (Hmax' : 1 + Z.of_nat 0 <= UpdateProxy.INT_MAX)
    by (unfold UpdateProxy.INT_MAX; lia).
  assert (Hlo : 0 <= 0) by lia.
  assert (Hlo' : 0 <= 1) by lia.
  split.
  - exact (proj1 (postponed_notifications_coalesce 5 (UpdateProxy.mkPrivate 1 0)
                    eq_refl Hlo Hmax)).
  - exact (proj1 (postponed_notifications_coalesce 0 (UpdateProxy.mkPrivate 1 1)
                    eq_refl Hlo' Hmax')).
Defined.

(** Outside a postponement every notification is passed on at once and the
    compressor is started; its timeout delivers the terminal signal. *)
Example notify_when_not_postponed :
  UpdateProxy.calls [UpdateProxy.CallNotify; UpdateProxy.CallTimeout]
    UpdateProxy.initial
  = (UpdateProxy.initial,
     [UpdateProxy.sigSettingsChangedUncompressedEarlyWarning;
      UpdateProxy.sigSettingsChangedUncompressed;
      UpdateProxy.updatesCompressorStart;
      UpdateProxy.sigSettingsChanged]).
Proof. reflexivity. Qed.

(** ** KisImageSignalRouter *)

(** C8, as stated, fails: a reselection request with a non-empty new
    active node is not delivered once the router's image is gone. *)
Lemma reselection_not_delivered_without_image :
  SignalRouter.newActiveNode (SignalRouter.nodeReselectionSignal reselectNode1)
  <> None /\
  SignalRouter.slotNotification (None : @SignalRouter.KisImageWSP nat nat nat)
    reselectNode1 = [] /\
  SignalRouter.emitNotification (None : @SignalRouter.KisImageWSP nat nat nat)
    reselectNode1 = [].
Proof.
  split; [discriminate|]. split; reflexivity.
Qed.

Lemma reselection_request_delivery_witness :
  SignalRouter.emitNotification liveImage reselectNode1
  = [SignalRouter.sigRequestNodeReselection (Some 1%nat) []].
Proof.
  destruct (reselection_request_delivery liveImage reselectNode1 eq_refl)
    as (Hemit & _ & Hsome & _).
  rewrite Hemit.
  assert (Hnode : SignalRouter.newActiveNode
                    (SignalRouter.nodeReselectionSignal reselectNode1) <> None)
    by discriminate.
  exact (Hsome (or_introl Hnode) _ eq_refl).
Defined.

(** A burst: the layers-changed notification is handled in place, the
    profile change goes to the queue. *)
Example emitNotifications_burst :
  SignalRouter.emitNotifications liveImage
    [SignalRouter.mkSignalType SignalRouter.LayersChangedSignal
       (SignalRouter.mkSizeChanged 0%nat 0%nat)
       (SignalRouter.mkNodeReselection (None : option nat) []);
     SignalRouter.mkSignalType SignalRouter.ProfileChangedSignal
       (SignalRouter.mkSizeChanged 0%nat 0%nat)
       (SignalRouter.mkNodeReselection None [])]
  = [SignalRouter.invalidateAllFrames; SignalRouter.sigLayersChangedAsync;
     SignalRouter.sigNotification
       (SignalRouter.mkSignalType SignalRouter.ProfileChangedSignal
          (SignalRouter.mkSizeChanged 0%nat 0%nat)
          (SignalRouter.mkNodeReselection None []))].
Proof. reflexivity. Qed.

End Examples.

(* ===================================================================== *)
(** * Accumulated update rectangles and the regeneration job *)
(* ===================================================================== *)

Section AccumulatedRectFacts.
Context {PD : PaintDeviceInterface} {TI : TransformInterface}
        {PI : KisTransformMaskParamsInterface}.

Implicit Types (m : KisTransformMask) (e : Env) (rc : QRect).

Lemma nonempty_bounds rc :
  isEmpty rc = false -> x1 rc <= x2 rc /\ y1 rc <= y2 rc.
Proof.
  unfold isEmpty. intros Hne. apply orb_false_elim in Hne as [Hx Hy].
  apply Z.ltb_ge in Hx. apply Z.ltb_ge in Hy. auto.
Qed.

Lemma int_sized_within frame rc :
  int_sized frame -> covers frame rc -> isEmpty rc = false -> int_sized rc.
Proof.
  unfold int_sized, covers. intros Hf Hc Hne.
  destruct (nonempty_bounds rc Hne). lia.
Qed.

Lemma backwards_false lo hi :
  -2147483648 <= lo -> lo <= hi -> hi <= UpdateProxy.INT_MAX ->
  hi - lo < UpdateProxy.INT_MAX -> backwards lo hi = false.
Proof.
  intros Hlo Hle Hhi Hspan. unfold backwards, int_add, int_sub.
  rewrite (int_wrap_in_range (hi - lo))
    by (unfold UpdateProxy.INT_MAX in *; lia).
  rewrite int_wrap_in_range by (unfold UpdateProxy.INT_MAX in *; lia).
  apply Z.ltb_ge. lia.
Qed.

Lemma nonempty_not_null rc :
  int_sized rc -> isEmpty rc = false -> isNull rc = false.
Proof.
  intros Hs Hne. destruct (nonempty_bounds rc Hne) as [Hx Hy].
  unfold isNull. apply andb_false_intro1. apply Z.eqb_neq.
  unfold int_sized, UpdateProxy.INT_MAX in Hs.
  unfold int_sub, UpdateProxy.int_wrap. intros Heq.
  assert (Hm := Z.mod_pos_bound (x1 rc - 1 + 2147483648) 4294967296 eq_refl).
  assert (Hd := Z.div_mod (x1 rc - 1 + 2147483648) 4294967296).
  destruct (Z.eq_dec (x1 rc) (-2147483648)) as [Hmin|Hmin].
  - replace (x1 rc - 1 + 2147483648) with (-1) in Heq by lia.
    change ((-1) mod 4294967296) with 4294967295 in Heq. lia.
  - assert (Hw : (x1 rc - 1 + 2147483648) mod 4294967296
                 = x1 rc - 1 + 2147483648)
      by (apply Z.mod_small; lia).
    lia.
Qed.

Lemma united_nonempty a b :
  int_sized a -> int_sized b ->
  isEmpty a = false -> isEmpty b = false ->
  united a b = mkQRect (Z.min (x1 a) (x1 b)) (Z.min (y1 a) (y1 b))
                       (Z.max (x2 a) (x2 b)) (Z.max (y2 a) (y2 b)).
Proof.
  intros Hsa Hsb Ha Hb. unfold united.
  rewrite (nonempty_not_null a Hsa Ha), (nonempty_not_null b Hsb Hb).
  destruct (nonempty_bounds a Ha) as [Hax Hay].
  destruct (nonempty_bounds b Hb) as [Hbx Hby].
  unfold int_sized in Hsa, Hsb.
  rewrite (backwards_false (x1 a) (x2 a)), (backwards_false (y1 a) (y2 a)),
          (backwards_false (x1 b) (x2 b)), (backwards_false (y1 b) (y2 b))
    by lia.
  reflexivity.
Qed.

Lemma addRect_accumulated frame acc rc :
  int_sized frame -> accumulated frame acc ->
  isEmpty rc = false -> covers frame rc ->
  isEmpty (addRect rc acc) = false /\
  covers frame (addRect rc acc) /\
  covers (addRect rc acc) rc /\
  (isEmpty acc = false -> covers (addRect rc acc) acc).
Proof.
  intros Hf [->|[Hacc Hin]] Hrc Hfr; unfold addRect.
  - change (united QRect_null rc) with rc.
    destruct (nonempty_bounds rc Hrc) as [Hx Hy].
    split; [exact Hrc|]. split; [exact Hfr|].
    split; [unfold covers; lia | intros Hn; discriminate Hn].
  - rewrite (united_nonempty acc rc (int_sized_within _ _ Hf Hin Hacc)
               (int_sized_within _ _ Hf Hfr Hrc) Hacc Hrc).
    destruct (nonempty_bounds rc Hrc) as [Hx Hy].
    destruct (nonempty_bounds acc Hacc) as [Hax Hay].
    unfold covers in *.
    split; [|split; [|split; [|intros _]]]; unfold isEmpty; simpl.
    + apply orb_false_intro; apply Z.ltb_ge; lia.
    + lia.
    + lia.
    + lia.
Qed.

Lemma covers_trans a b c : covers a b -> covers b c -> covers a c.
Proof. unfold covers. lia. Qed.

Lemma covers_refl a : covers a a.
Proof. unfold covers. lia. Qed.

Lemma threadSafe_accumulator frame rc m :
  int_sized frame ->
  (isEmpty rc = false -> covers frame rc) ->
  accumulated frame (forcedStaticUpdateExtraUpdateRect m) ->
  let m1 := fst (threadSafeForceStaticImageUpdate rc m) in
  accumulated frame (forcedStaticUpdateExtraUpdateRect m1) /\
  (isEmpty rc = false ->
   isEmpty (forcedStaticUpdateExtraUpdateRect m1) = false /\
   covers (forcedStaticUpdateExtraUpdateRect m1) rc) /\
  (isEmpty (forcedStaticUpdateExtraUpdateRect m) = false ->
   covers (forcedStaticUpdateExtraUpdateRect m1)
          (forcedStaticUpdateExtraUpdateRect m)).
Proof.
  intros Hf Hfr Hacc. unfold threadSafeForceStaticImageUpdate. cbn [fst].
  destruct (isEmpty rc) eqn:Hrc; cbn [negb].
  - split; [exact Hacc|]. split; [discriminate | intros _; apply covers_refl].
  - cbn [forcedStaticUpdateExtraUpdateRect set_extraUpdateRect].
    destruct (addRect_accumulated frame _ rc Hf Hacc Hrc (Hfr eq_refl))
      as (Hne & Hin & Hrc' & Hold).
    split; [right; split; assumption|].
    split; [intros _; split; assumption | exact Hold].
Qed.

(** After any series of requests within [frame] the accumulator covers
    every non-empty rectangle of the series, and what it held before. *)
Lemma requestUpdates_accumulator frame rects m :
  int_sized frame ->
  (forall rc, In rc rects -> isEmpty rc = false -> covers frame rc) ->
  accumulated frame (forcedStaticUpdateExtraUpdateRect m) ->
  let m' := requestUpdates rects m in
  accumulated frame (forcedStaticUpdateExtraUpdateRect m') /\
  (forall rc, In rc rects -> isEmpty rc = false ->
     covers (forcedStaticUpdateExtraUpdateRect m') rc) /\
  (isEmpty (forcedStaticUpdateExtraUpdateRect m) = false ->
   covers (forcedStaticUpdateExtraUpdateRect m')
          (forcedStaticUpdateExtraUpdateRect m)).
Proof.
  intros Hf. revert m.
  induction rects as [|rc rects IH]; intros m Hfr Hacc; cbn zeta.
  - split; [exact Hacc|]. split; [intros rc [] | intros _; apply covers_refl].
  - unfold requestUpdates. cbn [fold_left].
    destruct (threadSafe_accumulator frame rc m Hf
                (Hfr rc (or_introl eq_refl)) Hacc) as (Hacc1 & Hrc1 & Hold1).
    set (m1 := fst (threadSafeForceStaticImageUpdate rc m)) in *.
    destruct (IH m1 (fun r Hr => Hfr r (or_intror Hr)) Hacc1)
      as (Hacc' & Hall & Hold').
    fold (requestUpdates rects m1).
    split; [exact Hacc'|]. split.
    + intros r [<-|Hin] Hr.
      * destruct (Hrc1 Hr) as [Hne1 Hc1].
        exact (covers_trans _ _ _ (Hold' Hne1) Hc1).
      * exact (Hall r Hin Hr).
    + intros Hm.
      assert (Hm1 : isEmpty (forcedStaticUpdateExtraUpdateRect m1) = false).
      { destruct (isEmpty rc) eqn:Hrc; [|exact (proj1 (Hrc1 eq_refl))].
        unfold m1, threadSafeForceStaticImageUpdate. cbn [fst].
        rewrite Hrc. exact Hm. }
      exact (covers_trans _ _ _ (Hold' Hm1) (Hold1 Hm)).
Qed.


Lemma requestUpdates_only_accumulates rects m :
  set_extraUpdateRect (forcedStaticUpdateExtraUpdateRect (requestUpdates rects m)) m
  = requestUpdates rects m.
Proof.
  revert m. induction rects as [|rc rects IH]; intros m.
  - destruct m; reflexivity.
  - change (requestUpdates (rc :: rects) m)
      with (requestUpdates rects (fst (threadSafeForceStaticImageUpdate rc m))).
    set (m1 := fst (threadSafeForceStaticImageUpdate rc m)).
    rewrite <- (IH m1) at 2.
    unfold m1, threadSafeForceStaticImageUpdate. cbn [fst].
    destruct (negb (isEmpty rc)); reflexivity.
Qed.

(** X1. No requested rectangle is lost before the drain.  Let every
    non-empty requested rectangle lie within a rectangle [frame] whose
    coordinates, width and height fit an [int], so that the [int] arithmetic
    of [QRect::operator|] does not wrap around.  Then after any series of
    [threadSafeForceStaticImageUpdate] calls on a mask whose accumulator was
    just drained, [takeRect] hands out a rectangle that covers every
    non-empty rectangle of the series and is null or a proper rectangle
    within [frame]; it leaves the null rectangle behind, so that the next
    [takeRect] hands out nothing. *)
Theorem takeRect_after_requests frame rects m :
  int_sized frame ->
  (forall rc, In rc rects -> isEmpty rc = false -> covers frame rc) ->
  forcedStaticUpdateExtraUpdateRect m = QRect_null ->
  let '(taken, rest) :=
    takeRect (forcedStaticUpdateExtraUpdateRect (requestUpdates rects m)) in
  (forall rc, In rc rects -> isEmpty rc = false -> covers taken rc) /\
  ((forall rc, In rc rects -> isEmpty rc = true) -> taken = QRect_null) /\
  (taken = QRect_null \/ (isEmpty taken = false /\ covers frame taken)) /\
  rest = QRect_null /\ takeRect rest = (QRect_null, QRect_null).
Proof.
  intros Hf Hfr Hnull. unfold takeRect.
  destruct (requestUpdates_accumulator frame rects m Hf Hfr) as (Hacc & Hall & _).
  { left. exact Hnull. }
  split; [exact Hall|]. split; [|split; [exact Hacc | split; reflexivity]].
  clear Hall Hacc Hfr. revert m Hnull.
  induction rects as [|rc rects IH]; intros m Hnull Hempty.
  - exact Hnull.
  - change (requestUpdates (rc :: rects) m)
      with (requestUpdates rects (fst (threadSafeForceStaticImageUpdate rc m))).
    apply IH.
    + unfold threadSafeForceStaticImageUpdate. cbn [fst].
      rewrite (Hempty rc (or_introl eq_refl)). exact Hnull.
    + intros r Hr. apply Hempty. right. exact Hr.
Qed.

(** X2. [startAsyncRegenerationJob] always returns and never touches the
    store.  It resets the accumulated rectangle only when it hands that very
    rectangle to a submitted job, which happens exactly when the parent is a
    layer with an image that is not locked; in every other case the mask is
    unchanged and no job is submitted. *)
Theorem startAsyncRegenerationJob_drains_only_into_job m e :
  exists m' evs,
    startAsyncRegenerationJob m e = Some (m', mkEnv (heap e) (trace e ++ evs)) /\
    (job_submitted evs <->
     exists p img, parentLayer m = Some p /\ image p = Some img /\ locked img = false) /\
    (job_submitted evs ->
     evs = [AddSpontaneousJob (forcedStaticUpdateExtraUpdateRect m)] /\
     m' = set_extraUpdateRect QRect_null m) /\
    (~ job_submitted evs -> m' = m).
Proof.
  unfold startAsyncRegenerationJob, parentLayer, job_submitted.
  assert (Hnone : forall evs : list Event,
            (forall rc, ~ In (AddSpontaneousJob rc) evs) ->
            ~ exists rc, In (AddSpontaneousJob rc) evs)
    by (intros evs Hno [rc Hin]; exact (Hno rc Hin)).
  assert (Hstart : forall rc, ~ In (AddSpontaneousJob rc) [CompressorStart]).
  { intros rc [Hin|[]]. discriminate Hin. }
  assert (Hnil : forall rc, ~ In (AddSpontaneousJob rc) []) by (intros rc []).
  destruct (parent m) as [p|].
  2:{ exists m, []. rewrite app_nil_r. destruct e. split; [reflexivity|].
      split; [split; [intros [rc []] | intros (p & img & Hp & _); discriminate Hp]|].
      split; [intros [rc []] | reflexivity]. }
  destruct (isKisLayer p); cbn [negb].
  2:{ exists m, []. rewrite app_nil_r. destruct e. split; [reflexivity|].
      split; [split; [intros [rc []] | intros (q & img & Hq & _); discriminate Hq]|].
      split; [intros [rc []] | reflexivity]. }
  destruct (image p) as [img|] eqn:Himg.
  2:{ exists m, []. rewrite app_nil_r. destruct e. split; [reflexivity|].
      split; [split; [intros [rc []] |]|].
      - intros (q & img & [= <-] & Hi & _). congruence.
      - split; [intros [rc []] | reflexivity]. }
  destruct (locked img) eqn:Hlocked.
  - exists m, [CompressorStart]. split; [reflexivity|].
    split; [split|].
    + intros [rc Hin]. exfalso. exact (Hstart rc Hin).
    + intros (q & img' & [= <-] & Hi & Hl). congruence.
    + split; [|reflexivity]. intros [rc Hin]. exfalso. exact (Hstart rc Hin).
  - exists (set_extraUpdateRect QRect_null m),
           [AddSpontaneousJob (forcedStaticUpdateExtraUpdateRect m)].
    split; [reflexivity|]. split; [split|].
    + intros _. exists p, img. auto.
    + intros _. eexists. left. reflexivity.
    + split; [intros _; split; reflexivity|].
      intros Hno. exfalso. apply Hno. eexists. left. reflexivity.
Qed.


(** What [forceStartAsyncRegenerationJob] does before it tries to start the
    job. *)
Lemma forceStart_prefix m e :
  exists pre,
    forceStartAsyncRegenerationJob m e
    = startAsyncRegenerationJob
        (set_staticCache
           (mkStaticCacheStorage (staticCacheIsOverridden (staticCache m)) false
              (staticCacheDevice (staticCache m)) None) m)
        (mkEnv (heap e) (trace e ++ pre ++ [CompressorStop])) /\
    pre = (if staticCacheIsOverridden (staticCache m)
           then [SafeAssertFailed 117] else []).
Proof.
  unfold forceStartAsyncRegenerationJob, invalidateDeviceCache, bind, assert_noop.
  cbn [staticCacheIsOverridden].
  destruct (staticCacheIsOverridden (staticCache m)); cbn [negb].
  - eexists. split; [|reflexivity]. unfold emit, ret. cbn [heap trace].
    rewrite <- app_assoc. reflexivity.
  - eexists. split; [|reflexivity]. unfold emit, ret. cbn [heap trace app].
    reflexivity.
Qed.

(** X3. With the parent layer's image unlocked, the slot of
    [sigInternalForceStaticImageUpdate], run after any series of
    [threadSafeForceStaticImageUpdate] calls whose non-empty rectangles lie
    within a rectangle [frame] that fits the [int] range, invalidates the
    cache, stops the compressor and submits one job whose rectangle covers
    every non-empty rectangle requested; the accumulator is left null and
    the store untouched. *)
Theorem forced_update_submits_covering_job frame rects m e p img :
  int_sized frame ->
  (forall rc, In rc rects -> isEmpty rc = false -> covers frame rc) ->
  forcedStaticUpdateExtraUpdateRect m = QRect_null ->
  parent m = Some p -> isKisLayer p = true -> image p = Some img ->
  locked img = false ->
  exists m' pre job,
    slotInternalForceStaticImageUpdate (requestUpdates rects m) e
    = Some (m', mkEnv (heap e)
                  (trace e ++ pre ++ [CompressorStop; AddSpontaneousJob job])) /\
    (forall ev, In ev pre -> ev = SafeAssertFailed 117) /\
    (forall rc, In rc rects -> isEmpty rc = false -> covers job rc) /\
    forcedStaticUpdateExtraUpdateRect m' = QRect_null /\
    staticCacheValid (staticCache m') = false.
Proof.
  intros Hf Hfr Hnull Hp Hlayer Himg Hunlocked.
  destruct (requestUpdates_accumulator frame rects m Hf Hfr) as (_ & Hall & _);
    [left; exact Hnull|].
  rewrite <- (requestUpdates_only_accumulates rects m).
  set (job := forcedStaticUpdateExtraUpdateRect (requestUpdates rects m)) in *.
  unfold slotInternalForceStaticImageUpdate.
  destruct (forceStart_prefix (set_extraUpdateRect job m) e) as (pre & -> & Hpre).
  unfold startAsyncRegenerationJob.
  cbn [parent set_staticCache set_extraUpdateRect
       forcedStaticUpdateExtraUpdateRect].
  rewrite Hp, Hlayer, Himg, Hunlocked. cbn [negb takeRect].
  eexists _, pre, job. split.
  - unfold bind, emit, ret. cbn [heap trace]. rewrite <- !app_assoc.
    reflexivity.
  - split.
    + intros ev Hin. rewrite Hpre in Hin.
      cbn [staticCache set_extraUpdateRect] in Hin.
      destruct (staticCacheIsOverridden (staticCache m)); [|destruct Hin].
      destruct Hin as [<-|[]]. reflexivity.
    + split; [exact Hall|]. split; reflexivity.
Qed.

(** X4. With the parent layer's image locked, the same slot, run after
    requests whose non-empty rectangles lie within a rectangle [frame] that
    fits the [int] range, submits nothing: it invalidates the cache, stops
    the compressor and starts it again, and keeps the accumulated rectangle,
    which still covers every non-empty rectangle requested, for the
    retry. *)
Theorem forced_update_deferred_while_locked frame rects m e p img :
  int_sized frame ->
  (forall rc, In rc rects -> isEmpty rc = false -> covers frame rc) ->
  forcedStaticUpdateExtraUpdateRect m = QRect_null ->
  parent m = Some p -> isKisLayer p = true -> image p = Some img ->
  locked img = true ->
  exists m' pre,
    slotInternalForceStaticImageUpdate (requestUpdates rects m) e
    = Some (m', mkEnv (heap e)
                  (trace e ++ pre ++ [CompressorStop; CompressorStart])) /\
    (forall ev, In ev pre -> ev = SafeAssertFailed 117) /\
    (forall rc, In rc rects -> isEmpty rc = false ->
       covers (forcedStaticUpdateExtraUpdateRect m') rc) /\
    staticCacheValid (staticCache m') = false.
Proof.
  intros Hf Hfr Hnull Hp Hlayer Himg Hlocked.
  destruct (requestUpdates_accumulator frame rects m Hf Hfr) as (_ & Hall & _);
    [left; exact Hnull|].
  rewrite <- (requestUpdates_only_accumulates rects m).
  set (job := forcedStaticUpdateExtraUpdateRect (requestUpdates rects m)) in *.
  unfold slotInternalForceStaticImageUpdate.
  destruct (forceStart_prefix (set_extraUpdateRect job m) e) as (pre & -> & Hpre).
  unfold startAsyncRegenerationJob.
  cbn [parent set_staticCache set_extraUpdateRect].
  rewrite Hp, Hlayer, Himg, Hlocked. cbn [negb].
  eexists _, pre. split.
  - unfold bind, emit, ret. cbn [heap trace]. rewrite <- !app_assoc.
    reflexivity.
  - split.
    + intros ev Hin. rewrite Hpre in Hin.
      cbn [staticCache set_extraUpdateRect] in Hin.
      destruct (staticCacheIsOverridden (staticCache m)); [|destruct Hin].
      destruct Hin as [<-|[]]. reflexivity.
    + split; [exact Hall | reflexivity].
Qed.

End AccumulatedRectFacts.

(* ===================================================================== *)
(** * Footprints *)
(* ===================================================================== *)

Section FootprintFacts.
Context {PD : PaintDeviceInterface}.

Implicit Types (S : nat -> Prop) (P : Event -> Prop) (e : Env).

Lemma step_refl S P e : step S P e e.
Proof.
  split; [reflexivity|]. split; [reflexivity|].
  exists []. rewrite app_nil_r. split; [reflexivity | constructor].
Qed.

Lemma step_trans S P e1 e2 e3 :
  step S P e1 e2 -> step S P e2 e3 -> step S P e1 e3.
Proof.
  intros (Hl1 & Hf1 & evs1 & Ht1 & Hp1) (Hl2 & Hf2 & evs2 & Ht2 & Hp2).
  split; [congruence|]. split.
  - intros x Hx. rewrite (Hf2 x Hx). exact (Hf1 x Hx).
  - exists (evs1 ++ evs2). split.
    + rewrite Ht2, Ht1, app_assoc. reflexivity.
    + apply Forall_app. split; assumption.
Qed.

Lemma effects_ret {A} S P (a : A) (Q : A -> Prop) :
  Q a -> effects S P (ret a) Q.
Proof.
  intros Hq e b e' Heq. inversion Heq; subst. split; [apply step_refl | exact Hq].
Qed.

Lemma effects_bind {A B} S P (m : M A) (k : A -> M B) (Q1 : A -> Prop)
    (Q2 : B -> Prop) :
  effects S P m Q1 -> (forall a, Q1 a -> effects S P (k a) Q2) ->
  effects S P (bind m k) Q2.
Proof.
  intros Hm Hk e b e' Heq. unfold bind in Heq.
  destruct (m e) as [[a e1]|] eqn:Hrun; [|discriminate].
  destruct (Hm e a e1 Hrun) as [Hs1 Hq1].
  destruct (Hk a Hq1 e1 b e' Heq) as [Hs2 Hq2].
  split; [exact (step_trans _ _ _ _ _ Hs1 Hs2) | exact Hq2].
Qed.

Lemma effects_weaken {A} S P (m : M A) (Q1 Q2 : A -> Prop) :
  effects S P m Q1 -> (forall a, Q1 a -> Q2 a) -> effects S P m Q2.
Proof.
  intros Hm Hq e a e' Heq. destruct (Hm e a e' Heq) as [Hs Hq1].
  split; [exact Hs | exact (Hq a Hq1)].
Qed.

Lemma effects_null_deref {A} S P (Q : A -> Prop) : effects S P null_deref Q.
Proof. intros e a e' Heq. discriminate Heq. Qed.

Lemma effects_emit S P ev : P ev -> effects S P (emit ev) (fun _ => True).
Proof.
  intros Hp e a e' Heq. inversion Heq; subst. split; [|exact I].
  split; [reflexivity|]. split; [reflexivity|].
  exists [ev]. split; [reflexivity|]. constructor; [exact Hp | constructor].
Qed.

Lemma effects_assert_noop S P line c :
  (c = false -> P (SafeAssertFailed line)) ->
  effects S P (assert_noop line c) (fun _ => True).
Proof.
  intros Hp. destruct c; simpl.
  - apply effects_ret. exact I.
  - apply effects_emit. apply Hp. reflexivity.
Qed.

Lemma effects_deref S P p : effects S P (deref p) (fun _ => True).
Proof.
  intros e a e' Heq. unfold deref in Heq.
  destruct p as [x|]; [|discriminate].
  destruct (heap e !! x); [|discriminate].
  inversion Heq; subst. split; [apply step_refl | exact I].
Qed.

Lemma effects_update S P p f :
  (forall x, p = Some x -> S x) -> effects S P (update p f) (fun _ => True).
Proof.
  intros Hs e a e' Heq. unfold update in Heq.
  destruct p as [x|]; [|discriminate].
  destruct (heap e !! x) as [d|]; [|discriminate].
  inversion Heq; subst. split; [|exact I].
  split; [cbn [heap]; apply length_insert|]. split.
  - intros y Hy. cbn [heap]. apply list_lookup_insert_ne.
    intros ->. apply Hy. apply Hs. reflexivity.
  - exists []. cbn [trace]. rewrite app_nil_r. split; [reflexivity | constructor].
Qed.

End FootprintFacts.

(* ===================================================================== *)
(** * decorateRect: what it writes and when it asks for a new image *)
(* ===================================================================== *)

Section DecorateRectFacts.
Context {PD : PaintDeviceInterface} {TI : TransformInterface}
        {PI : KisTransformMaskParamsInterface}.

Implicit Types (m : KisTransformMask) (e : Env) (rc : QRect)
               (src dst : KisPaintDeviceSP) (S : nat -> Prop)
               (P : Event -> Prop) (s : StaticCacheStorage).

Lemma effects_isCacheValid S P Q s :
  assertions_allowed P ->
  effects S P (isCacheValid Q s) (fun b => b = servesParams s Q).
Proof.
  intros Ha. unfold isCacheValid.
  eapply effects_bind; [apply effects_assert_noop; intros _; apply Ha|].
  intros _ _. apply effects_ret. reflexivity.
Qed.

Lemma effects_isCacheOverridden S P s :
  assertions_allowed P ->
  effects S P (isCacheOverridden s) (fun b => b = staticCacheIsOverridden s).
Proof.
  intros Ha. unfold isCacheOverridden.
  eapply effects_bind; [apply effects_assert_noop; intros _; apply Ha|].
  intros _ _. apply effects_ret. reflexivity.
Qed.

Lemma effects_invalidateDeviceCache S P s :
  assertions_allowed P ->
  effects S P (invalidateDeviceCache s)
    (fun s' => s' = mkStaticCacheStorage (staticCacheIsOverridden s) false
                      (staticCacheDevice s) None).
Proof.
  intros Ha. unfold invalidateDeviceCache.
  eapply effects_bind; [apply effects_assert_noop; intros _; apply Ha|].
  intros _ _. apply effects_ret. reflexivity.
Qed.

Lemma effects_setDeviceCacheValid S P Q s :
  assertions_allowed P ->
  effects S P (setDeviceCacheValid Q s)
    (fun s' => s' = mkStaticCacheStorage (staticCacheIsOverridden s) true
                      (staticCacheDevice s) Q).
Proof.
  intros Ha. unfold setDeviceCacheValid.
  eapply effects_bind; [apply effects_assert_noop; intros _; apply Ha|].
  intros _ _. apply effects_ret. reflexivity.
Qed.

Lemma effects_runWorker S P params src dst rc m :
  (forall x, dst = Some x -> S x) ->
  effects S P (runWorker params src dst rc m)
    (fun m' => m' = set_worker (mkWorker (isAnimated (paramsHolder m))
                                  (finalAffineTransform params)) m).
Proof.
  intros Hdst. unfold runWorker.
  eapply effects_bind; [apply effects_deref|]. intros sv _.
  eapply effects_bind; [apply effects_update; exact Hdst|]. intros _ _.
  apply effects_ret. reflexivity.
Qed.

Lemma effects_needsStaticImageUpdate S P Q maskPos flags m :
  assertions_allowed P ->
  effects S P (needsStaticImageUpdate Q maskPos flags m)
    (fun b => update_suppressed flags m -> b = false).
Proof.
  intros Ha. unfold needsStaticImageUpdate.
  eapply effects_bind; [apply effects_isCacheOverridden; exact Ha|].
  intros ov ->. destruct (staticCacheIsOverridden (staticCache m)) eqn:Hov.
  { apply effects_ret. reflexivity. }
  destruct (recalculatingStaticImage m) eqn:Hrec.
  { apply effects_ret. reflexivity. }
  eapply effects_bind with (Q1 := fun _ => True).
  { destruct maskPos; try (apply effects_ret; exact I).
    eapply effects_bind; [apply effects_isCacheValid; exact Ha|].
    intros v _. apply effects_ret. exact I. }
  intros [|] _; apply effects_ret.
  - intros [Hflag|[Hr|Ho]]; [rewrite Hflag; reflexivity | congruence..].
  - reflexivity.
Qed.


(** X5. [decorateRect] writes to two devices at most: the destination and
    the device of the static cache.  Every other device of the store, the
    source included when it is neither of the two, holds the same value
    afterwards, and no device is added or removed. *)
Theorem decorateRect_footprint src dst rc (maskPos : PositionToFilthy)
    (flags : KisRenderPassFlags) m e r m' e' :
  decorateRect src dst rc maskPos flags m e = Some ((r, m'), e') ->
  length (heap e') = length (heap e) /\
  forall x : nat,
    dst <> Some x -> device (staticCache m) <> Some x ->
    heap e' !! x = heap e !! x.
Proof.
  intros Hrun.
  set (S := targets dst (device (staticCache m))).
  assert (Hdst : forall x, dst = Some x -> S x) by (intros x Hx; left; exact Hx).
  assert (Hall : assertions_allowed (fun _ => True)) by (intros l; exact I).
  assert (Heff : effects S (fun _ => True)
                   (decorateRect src dst rc maskPos flags m) (fun _ => True)).
  { unfold decorateRect.
    destruct (bakeIntoParams (paramsHolder m)) as [params|];
      [|apply effects_null_deref].
    destruct (isHidden params); [apply effects_ret; exact I|].
    eapply effects_bind; [apply effects_assert_noop; intros _; exact I|].
    intros _ _.
    destruct (externalFrameActive (paramsHolder m)).
    { destruct (isAffine params); [|apply effects_ret; exact I].
      eapply effects_bind; [apply effects_runWorker; exact Hdst|].
      intros m1 _. apply effects_ret. exact I. }
    eapply effects_bind; [apply effects_needsStaticImageUpdate; exact Hall|].
    intros trigger _.
    eapply effects_bind with (Q1 := same_node m).
    { destruct trigger; [|apply effects_ret, same_node_refl].
      eapply effects_bind with (Q1 := fun _ => True).
      { destruct (testingInterface m);
          [apply effects_emit | apply effects_ret]; exact I. }
      intros _ _.
      eapply effects_bind; [apply effects_invalidateDeviceCache; exact Hall|].
      intros c ->.
      eapply effects_bind; [apply effects_emit; exact I|]. intros _ _.
      apply effects_ret. repeat split. }
    intros m1 (_ & _ & _ & Hdev1).
    assert (Hcache : forall x, device (staticCache m1) = Some x -> S x)
      by (intros x Hx; right; rewrite <- Hdev1; exact Hx).
    eapply effects_bind with (Q1 := fun _ => True).
    { destruct (recalculatingStaticImage m1).
      - eapply effects_bind; [apply effects_isCacheValid; exact Hall|].
        intros v _.
        eapply effects_bind; [apply effects_assert_noop; intros _; exact I|].
        intros _ _. cbv zeta.
        eapply effects_bind; [apply effects_update; exact Hcache|]. intros _ _.
        eapply effects_bind; [apply effects_deref|]. intros sv _.
        eapply effects_bind; [apply effects_update; exact Hcache|]. intros _ _.
        eapply effects_bind; [apply effects_deref|]. intros cached _.
        eapply effects_bind; [apply effects_update; exact Hdst|]. intros _ _.
        eapply effects_bind; [apply effects_setDeviceCacheValid; exact Hall|].
        intros c _. apply effects_ret. exact I.
      - eapply effects_bind with (Q1 := fun _ => True).
        { destruct (isAffine params); [|apply effects_ret; exact I].
          eapply effects_bind; [apply effects_isCacheValid; exact Hall|].
          intros v _. apply effects_ret. exact I. }
        intros [|] _.
        { eapply effects_weaken; [apply effects_runWorker; exact Hdst|].
          intros; exact I. }
        eapply effects_bind; [apply effects_isCacheValid; exact Hall|].
        intros [|] _; [|apply effects_ret; exact I].
        eapply effects_bind; [apply effects_deref|]. intros cached _.
        eapply effects_bind; [apply effects_update; exact Hdst|]. intros _ _.
        apply effects_ret. exact I. }
    intros m2 _.
    eapply effects_bind; [apply effects_assert_noop; intros _; exact I|].
    intros _ _.
    destruct (busyProgressIndicator m2); [|apply effects_null_deref].
    eapply effects_bind; [apply effects_emit; exact I|]. intros _ _.
    apply effects_ret. exact I. }
  destruct (Heff e (r, m') e' Hrun) as [(Hlen & Hframe & _) _].
  split; [exact Hlen|].
  intros x Hd Hc. apply Hframe. intros [Hx|Hx]; [exact (Hd Hx) | exact (Hc Hx)].
Qed.


Lemma Forall_not_In (P : Event -> Prop) (evs : list Event) ev :
  Forall P evs -> ~ P ev -> ~ In ev evs.
Proof.
  intros Hall Hnp Hin. apply Hnp.
  rewrite List.Forall_forall in Hall. exact (Hall ev Hin).
Qed.

(** With the update suppressed, [decorateRect] emits no request; outside a
    regeneration it leaves the cache state alone, and inside one (visible
    parameters, no external frame) it leaves the cache valid for the baked
    parameters. *)
Lemma decorateRect_suppressed_effects src dst rc maskPos flags m :
  update_suppressed flags m ->
  effects (fun _ => True) (fun ev => ~ asks_for_update ev)
    (decorateRect src dst rc maskPos flags m)
    (fun r =>
       (recalculatingStaticImage m = false -> staticCache (snd r) = staticCache m) /\
       (recalculatingStaticImage m = true ->
        forall params, bakeIntoParams (paramsHolder m) = Some params ->
        isHidden params = false -> externalFrameActive (paramsHolder m) = false ->
        staticCache (snd r)
        = mkStaticCacheStorage (staticCacheIsOverridden (staticCache m)) true
            (staticCacheDevice (staticCache m)) (Some params))).
Proof.
  intros Hsup.
  set (P := fun ev => ~ asks_for_update ev).
  assert (Hall : assertions_allowed P)
    by (intros l [Hl|Hl]; discriminate Hl).
  assert (Hany : forall x : nat, (fun _ : nat => True) x) by (intros; exact I).
  assert (Hbusy : P BusyProgressIndicatorUpdate)
    by (intros [Hl|Hl]; discriminate Hl).
  unfold decorateRect.
  destruct (bakeIntoParams (paramsHolder m)) as [params|] eqn:Hbake;
    [|apply effects_null_deref].
  destruct (isHidden params) eqn:Hhidden.
  { apply effects_ret. cbn [snd]. split; [reflexivity|].
    intros _ q [= <-]. congruence. }
  eapply effects_bind; [apply effects_assert_noop; intros _; apply Hall|].
  intros _ _.
  destruct (externalFrameActive (paramsHolder m)) eqn:Hext.
  { destruct (isAffine params).
    - eapply effects_bind; [apply effects_runWorker; intros; exact I|].
      intros m1 ->. apply effects_ret. cbn [snd]. split; [reflexivity|].
      intros _ q _ _ Hf. discriminate Hf.
    - apply effects_ret. cbn [snd]. split; [reflexivity|].
      intros _ q _ _ Hf. discriminate Hf. }
  eapply effects_bind; [apply effects_needsStaticImageUpdate; exact Hall|].
  intros trigger Htrigger. cbv beta in Htrigger. rewrite (Htrigger Hsup).
  eapply effects_bind with (Q1 := fun m1 => m1 = m);
    [apply effects_ret; reflexivity|]. intros m1 ->.
  eapply effects_bind with
    (Q1 := fun m2 =>
       (recalculatingStaticImage m = false -> staticCache m2 = staticCache m) /\
       (recalculatingStaticImage m = true ->
        staticCache m2
        = mkStaticCacheStorage (staticCacheIsOverridden (staticCache m)) true
            (staticCacheDevice (staticCache m)) (Some params))).
  { destruct (recalculatingStaticImage m) eqn:Hrec.
    - eapply effects_bind; [apply effects_isCacheValid; exact Hall|].
      intros v _.
      eapply effects_bind; [apply effects_assert_noop; intros _; apply Hall|].
      intros _ _. cbv zeta.
      eapply effects_bind; [apply effects_update; intros; exact I|]. intros _ _.
      eapply effects_bind; [apply effects_deref|]. intros sv _.
      eapply effects_bind; [apply effects_update; intros; exact I|]. intros _ _.
      eapply effects_bind; [apply effects_deref|]. intros cached _.
      eapply effects_bind; [apply effects_update; intros; exact I|]. intros _ _.
      eapply effects_bind; [apply effects_setDeviceCacheValid; exact Hall|].
      intros c ->. apply effects_ret.
      split; [discriminate | intros _; reflexivity].
    - eapply effects_bind with (Q1 := fun _ => True).
      { destruct (isAffine params); [|apply effects_ret; exact I].
        eapply effects_bind; [apply effects_isCacheValid; exact Hall|].
        intros v _. apply effects_ret. exact I. }
      intros [|] _.
      { eapply effects_weaken; [apply effects_runWorker; intros; exact I|].
        intros m2 ->. split; [intros _; reflexivity | discriminate]. }
      eapply effects_bind; [apply effects_isCacheValid; exact Hall|].
      intros [|] _.
      + eapply effects_bind; [apply effects_deref|]. intros cached _.
        eapply effects_bind; [apply effects_update; intros; exact I|].
        intros _ _. apply effects_ret.
        split; [intros _; reflexivity | discriminate].
      + apply effects_ret. split; [intros _; reflexivity | discriminate]. }
  intros m2 [Hkeep Hregen].
  eapply effects_bind; [apply effects_assert_noop; intros _; apply Hall|].
  intros _ _.
  destruct (busyProgressIndicator m2); [|apply effects_null_deref].
  eapply effects_bind; [apply effects_emit; exact Hbusy|]. intros _ _.
  apply effects_ret. cbn [snd]. split; [exact Hkeep|].
  intros Hrec q [= <-] _ _. exact (Hregen Hrec).
Qed.

(** X6. [decorateRect] never asks for a new static image, and never
    invalidates the cache, when the [NoTransformMaskUpdates] flag is set,
    while the static image is being recalculated, or while the cache is
    overridden: the compressor is not started, the testing interface is not
    told of a triggered update and, outside a recalculation, the cache state
    is the one it was. *)
Theorem decorateRect_suppressed_update src dst rc (maskPos : PositionToFilthy)
    (flags : KisRenderPassFlags) m e r m' e' :
  update_suppressed flags m ->
  decorateRect src dst rc maskPos flags m e = Some ((r, m'), e') ->
  exists evs,
    trace e' = trace e ++ evs /\
    ~ In CompressorStart evs /\
    ~ In NotifyDecorateRectTriggeredStaticImageUpdate evs /\
    (recalculatingStaticImage m = false -> staticCache m' = staticCache m).
Proof.
  intros Hsup Hrun.
  destruct (decorateRect_suppressed_effects src dst rc maskPos flags m Hsup
              e (r, m') e' Hrun) as [(_ & _ & evs & Htrace & Hevs) [Hkeep _]].
  exists evs. split; [exact Htrace|].
  split; [|split; [|exact Hkeep]].
  - apply (Forall_not_In _ _ _ Hevs). intros Hn. apply Hn. left. reflexivity.
  - apply (Forall_not_In _ _ _ Hevs). intros Hn. apply Hn. right. reflexivity.
Qed.

(** X7. A regeneration pass revalidates the cache: when [decorateRect] runs
    with [recalculatingStaticImage] set, visible parameters and no external
    frame, the cache it leaves is valid for exactly the parameters baked at
    that call, on the same device and with the overridden flag untouched;
    [isCacheValid] then answers what [compareTransform] of those parameters
    answers. *)
Theorem decorateRect_regeneration_validates src dst rc
    (maskPos : PositionToFilthy) (flags : KisRenderPassFlags) m params e r m' e' :
  recalculatingStaticImage m = true ->
  bakeIntoParams (paramsHolder m) = Some params ->
  isHidden params = false -> externalFrameActive (paramsHolder m) = false ->
  decorateRect src dst rc maskPos flags m e = Some ((r, m'), e') ->
  staticCache m'
  = mkStaticCacheStorage (staticCacheIsOverridden (staticCache m)) true
      (staticCacheDevice (staticCache m)) (Some params) /\
  forall Q, exists e'',
    isCacheValid Q (staticCache m') e' = Some (compareTransform params Q, e'').
Proof.
  intros Hrec Hbake Hhidden Hext Hrun.
  assert (Hsup : update_suppressed flags m) by (right; left; exact Hrec).
  destruct (decorateRect_suppressed_effects src dst rc maskPos flags m Hsup
              e (r, m') e' Hrun) as [_ [_ Hregen]].
  specialize (Hregen Hrec params Hbake Hhidden Hext). cbn [snd] in Hregen.
  split; [exact Hregen|].
  intros Q. rewrite Hregen. unfold isCacheValid, bind.
  cbn [staticCacheValid paramsForStaticImage staticCacheIsOverridden sp_bool
       negb orb andb assert_noop ret].
  eexists. reflexivity.
Qed.

(** X8. While an external frame is rendered, and whenever the parameters
    are hidden, [decorateRect] neither uses nor resets the static image: the
    cache state is the one it was and nothing at all is added to the trace
    (no compressor start, no progress update). *)
Theorem decorateRect_external_frame_leaves_cache src dst rc
    (maskPos : PositionToFilthy) (flags : KisRenderPassFlags) m params e r m' e' :
  bakeIntoParams (paramsHolder m) = Some params ->
  isHidden params = true \/ externalFrameActive (paramsHolder m) = true ->
  decorateRect src dst rc maskPos flags m e = Some ((r, m'), e') ->
  trace e' = trace e /\ staticCache m' = staticCache m /\
  (isHidden params = true -> m' = m /\ e' = e).
Proof.
  intros Hbake Hcase Hrun.
  assert (Heff : effects (fun _ => True) (fun _ => False)
                   (decorateRect src dst rc maskPos flags m)
                   (fun r => staticCache (snd r) = staticCache m)).
  { unfold decorateRect. rewrite Hbake.
    destruct (isHidden params) eqn:Hhidden; [apply effects_ret; reflexivity|].
    destruct Hcase as [Hf|Hext]; [discriminate Hf|]. rewrite Hext.
    eapply effects_bind.
    { apply effects_assert_noop. destruct maskPos; discriminate. }
    intros _ _.
    destruct (isAffine params); [|apply effects_ret; reflexivity].
    eapply effects_bind; [apply effects_runWorker; intros; exact I|].
    intros m1 ->. apply effects_ret. reflexivity. }
  destruct (Heff e (r, m') e' Hrun) as [(_ & _ & evs & Htrace & Hevs) Hcache].
  split.
  - destruct evs as [|ev evs]; [rewrite app_nil_r in Htrace; exact Htrace|].
    inversion Hevs as [|? ? Hfalse _]. destruct Hfalse.
  - split; [exact Hcache|].
    intros Hhidden. unfold decorateRect in Hrun. rewrite Hbake, Hhidden in Hrun.
    inversion Hrun. split; reflexivity.
Qed.


Lemma isCacheValid_run Q s e :
  negb (staticCacheValid s) || sp_bool (paramsForStaticImage s)
  || staticCacheIsOverridden s = true ->
  isCacheValid Q s e = Some (servesParams s Q, e).
Proof. intros Hok. unfold isCacheValid, bind. rewrite Hok. reflexivity. Qed.

Lemma isCacheOverridden_run s e :
  negb (staticCacheIsOverridden s) || staticCacheValid s = true ->
  isCacheOverridden s e = Some (staticCacheIsOverridden s, e).
Proof. intros Hok. unfold isCacheOverridden, bind. rewrite Hok. reflexivity. Qed.

Lemma bind_run {A B} (m : M A) (k : A -> M B) e a e1 :
  m e = Some (a, e1) -> bind m k e = k a e1.
Proof. intros Hm. unfold bind. rewrite Hm. reflexivity. Qed.

(** X9. An update at or above the mask invalidates at once: with position
    [N_FILTHY] or [N_ABOVE_FILTHY], no [NoTransformMaskUpdates] flag, a cache
    that is neither overridden nor being recalculated, visible parameters
    and no external frame, [decorateRect] leaves the cache invalid with its
    parameters dropped and starts the compressor exactly once, whatever the
    cache held before.  Affine parameters are then rendered through the
    worker into the destination; with non-affine parameters no device is
    written at all. *)
Theorem decorateRect_filthy_invalidates (a_src a_dst : nat) sv dv rc
    (maskPos : PositionToFilthy) (flags : KisRenderPassFlags) m params e :
  bakeIntoParams (paramsHolder m) = Some params ->
  isHidden params = false -> externalFrameActive (paramsHolder m) = false ->
  recalculatingStaticImage m = false ->
  staticCacheIsOverridden (staticCache m) = false ->
  maskPos = N_FILTHY \/ maskPos = N_ABOVE_FILTHY ->
  testFlag flags NoTransformMaskUpdates = false ->
  busyProgressIndicator m = true ->
  heap e !! a_src = Some sv -> heap e !! a_dst = Some dv ->
  exists m',
    decorateRect (Some a_src) (Some a_dst) rc maskPos flags m e
    = Some ((rc, m'),
            mkEnv (if isAffine params
                   then <[a_dst := runPartialDst (isAnimated (paramsHolder m))
                                     (finalAffineTransform params) sv dv rc]> (heap e)
                   else heap e)
                  (trace e
                   ++ (if testingInterface m
                       then [NotifyDecorateRectTriggeredStaticImageUpdate] else [])
                   ++ [CompressorStart; BusyProgressIndicatorUpdate])) /\
    staticCache m'
    = mkStaticCacheStorage false false (staticCacheDevice (staticCache m)) None.
Proof.
  intros Hbake Hhidden Hext Hrec Hov Hpos Hflag Hbusy Hsrc Hdst.
  set (c := mkStaticCacheStorage false false (staticCacheDevice (staticCache m)) None).
  set (m1 := set_staticCache c m).
  set (w := mkWorker (isAnimated (paramsHolder m)) (finalAffineTransform params)).
  set (notes := if testingInterface m
                then [NotifyDecorateRectTriggeredStaticImageUpdate] else []).
  set (e1 := mkEnv (heap e) (trace e ++ notes ++ [CompressorStart])).
  exists (if isAffine params then set_worker w m1 else m1).
  split; [|destruct (isAffine params); reflexivity].
  unfold decorateRect. rewrite Hbake, Hhidden, Hext.
  rewrite (bind_run _ _ e tt e) by (destruct maskPos; reflexivity).
  erewrite (bind_run _ _ e true e).
  2:{ unfold needsStaticImageUpdate.
      erewrite bind_run by (apply isCacheOverridden_run; rewrite Hov; reflexivity).
      rewrite Hov, Hrec.
      destruct Hpos as [-> | ->]; unfold bind, ret; rewrite Hflag; reflexivity. }
  erewrite (bind_run _ _ e m1 e1).
  2:{ unfold invalidateDeviceCache. rewrite Hov. unfold notes, e1, m1, c.
      destruct (testingInterface m);
        cbv [bind ret emit assert_noop negb staticCacheIsOverridden heap trace];
        rewrite <- ?app_assoc; reflexivity. }
  unfold m1 at 1. cbn [recalculatingStaticImage set_staticCache]. rewrite Hrec.
  assert (Hinvalid : forall e0,
            isCacheValid (Some params) (staticCache m1) e0 = Some (false, e0)).
  { intros e0. rewrite isCacheValid_run; reflexivity. }
  fold c. fold m1.
  assert (Htail : forall m2 (h : list KisPaintDevice),
            busyProgressIndicator m2 = true ->
            (assert_noop 546 (busyProgressIndicator m2) >>
             if busyProgressIndicator m2
             then emit BusyProgressIndicatorUpdate >> ret (rc, m2)
             else null_deref)
              (mkEnv h (trace e ++ notes ++ [CompressorStart]))
            = Some ((rc, m2),
                    mkEnv h (trace e ++ notes
                             ++ [CompressorStart; BusyProgressIndicatorUpdate]))).
  { intros m2 h Hb. rewrite Hb.
    cbv [bind ret emit assert_noop heap trace].
    rewrite <- !app_assoc. reflexivity. }
  destruct (isAffine params) eqn:Haffine.
  - erewrite (bind_run _ _ e1 (set_worker w m1)
                (mkEnv (<[a_dst := runPartialDst (isAnimated (paramsHolder m))
                                     (finalAffineTransform params) sv dv rc]> (heap e))
                       (trace e1))).
    + apply Htail. exact Hbusy.
    + erewrite bind_run by (erewrite bind_run by apply Hinvalid; reflexivity).
      cbn [negb]. unfold runWorker. cbv zeta.
      erewrite bind_run by (apply deref_live; exact Hsrc).
      erewrite bind_run by (apply update_live; exact Hdst).
      reflexivity.
  - erewrite (bind_run _ _ e1 m1 e1).
    + apply Htail. exact Hbusy.
    + erewrite bind_run by reflexivity. cbv beta iota.
      erewrite bind_run by apply Hinvalid. reflexivity.
Qed.

(** X10. A valid cache is served as it is: with visible parameters, no
    external frame, no recalculation running, a cache that is valid for the
    baked parameters (or overridden, with its parameters dropped), and the
    update suppressed by an overridden cache, by position [N_BELOW_FILTHY]
    or by the [NoTransformMaskUpdates] flag, [decorateRect] copies [rc] of
    the cache device into the destination and reports progress.  It reads
    no source, runs no worker, starts no compressor, trips no assertion and
    leaves the mask as it was. *)
Theorem decorateRect_fetches_valid_cache (a_dst a_cache : nat) cv dv src rc
    (maskPos : PositionToFilthy) (flags : KisRenderPassFlags) m params e :
  bakeIntoParams (paramsHolder m) = Some params ->
  isHidden params = false -> externalFrameActive (paramsHolder m) = false ->
  recalculatingStaticImage m = false ->
  staticCacheValid (staticCache m) = true ->
  match paramsForStaticImage (staticCache m) with
  | Some q => compareTransform q (Some params) = true
  | None => staticCacheIsOverridden (staticCache m) = true
  end ->
  staticCacheIsOverridden (staticCache m) = true \/
  maskPos = N_BELOW_FILTHY \/
  testFlag flags NoTransformMaskUpdates = true ->
  busyProgressIndicator m = true ->
  device (staticCache m) = Some a_cache ->
  heap e !! a_cache = Some cv -> heap e !! a_dst = Some dv ->
  decorateRect src (Some a_dst) rc maskPos flags m e
  = Some ((rc, m),
          mkEnv (<[a_dst := copyAreaOptimized (topLeft rc) cv dv rc]> (heap e))
                (trace e ++ [BusyProgressIndicatorUpdate])).
Proof.
  intros Hbake Hhidden Hext Hrec Hvalid Hmatch Hquiet Hbusy Hdev Hcache Hdst.
  assert (Hserves : forall e0,
            isCacheValid (Some params) (staticCache m) e0 = Some (true, e0)).
  { intros e0. rewrite isCacheValid_run.
    - unfold servesParams. rewrite Hvalid.
      destruct (paramsForStaticImage (staticCache m)); [rewrite Hmatch|];
        reflexivity.
    - rewrite Hvalid.
      destruct (paramsForStaticImage (staticCache m)); [reflexivity|].
      rewrite Hmatch. reflexivity. }
  unfold decorateRect. rewrite Hbake, Hhidden, Hext.
  rewrite (bind_run _ _ e tt e) by (destruct maskPos; reflexivity).
  erewrite (bind_run _ _ e false e).
  2:{ unfold needsStaticImageUpdate.
      erewrite bind_run
        by (apply isCacheOverridden_run; rewrite Hvalid; apply orb_true_r).
      destruct (staticCacheIsOverridden (staticCache m)) eqn:Hov; [reflexivity|].
      rewrite Hrec.
      destruct Hquiet as [Hf|[-> | Hflag]]; [discriminate Hf| |].
      - erewrite bind_run by (erewrite bind_run by apply Hserves; reflexivity).
        reflexivity.
      - destruct maskPos.
        + erewrite bind_run by reflexivity. cbv beta iota. rewrite Hflag.
          reflexivity.
        + erewrite bind_run by reflexivity. cbv beta iota. rewrite Hflag.
          reflexivity.
        + erewrite bind_run by (erewrite bind_run by apply Hserves; reflexivity).
          reflexivity. }
  cbv beta iota.
  erewrite (bind_run _ _ e m e) by reflexivity.
  rewrite Hrec.
  erewrite (bind_run _ _ e m
              (mkEnv (<[a_dst := copyAreaOptimized (topLeft rc) cv dv rc]> (heap e))
                     (trace e))).
  - rewrite Hbusy. cbv [bind ret emit assert_noop heap trace]. reflexivity.
  - erewrite (bind_run _ _ e false e).
    2:{ destruct (isAffine params); [|reflexivity].
        erewrite bind_run by apply Hserves. reflexivity. }
    cbv beta iota.
    erewrite bind_run by apply Hserves. cbv beta iota.
    rewrite Hdev.
    erewrite bind_run by (apply deref_live; exact Hcache).
    erewrite bind_run by (apply update_live; exact Hdst).
    reflexivity.
Qed.

End DecorateRectFacts.

(* ===================================================================== *)
(** * StaticCacheStorage: allocation, validity life cycle, aliasing *)
(* ===================================================================== *)

Section StaticCacheMoreFacts.
Context {PD : PaintDeviceInterface} {TI : TransformInterface}
        {PI : KisTransformMaskParamsInterface}.

Implicit Types (s : StaticCacheStorage) (e : Env).

Lemma lazyAllocate_fresh cs b s e :
  (let* p := alloc (newPaintDevice cs) in
   update p (setDefaultBounds b) >>
   ret (mkStaticCacheStorage (staticCacheIsOverridden s) (staticCacheValid s)
          p (paramsForStaticImage s))) e
  = Some (mkStaticCacheStorage (staticCacheIsOverridden s) (staticCacheValid s)
            (Some (length (heap e))) (paramsForStaticImage s),
          mkEnv (heap e ++ [setDefaultBounds b (newPaintDevice cs)]) (trace e)).
Proof.
  unfold bind, alloc, update, ret. cbn [heap trace].
  rewrite list_lookup_middle by reflexivity.
  rewrite insert_app_r_alt by reflexivity.
  rewrite Nat.sub_diag. reflexivity.
Qed.

(** X11. [lazyAllocateStaticCache] never reallocates in place: whenever it
    returns, every device that was in the store is still there with the same
    value, the flags and the stored parameters are untouched, nothing is
    traced, and the cache device is then live; it is the old device, with
    nothing changed at all, or a device at an address that was free before,
    holding [new KisPaintDevice(cs)] with the default bounds set. *)
Theorem lazyAllocateStaticCache_keeps_devices cs b s e s' e' :
  lazyAllocateStaticCache cs b s e = Some (s', e') ->
  staticCacheIsOverridden s' = staticCacheIsOverridden s /\
  staticCacheValid s' = staticCacheValid s /\
  paramsForStaticImage s' = paramsForStaticImage s /\
  trace e' = trace e /\
  (forall (a : nat) d, heap e !! a = Some d -> heap e' !! a = Some d) /\
  exists (c : nat) d,
    staticCacheDevice s' = Some c /\ heap e' !! c = Some d /\
    ((s' = s /\ e' = e) \/
     (heap e !! c = None /\ d = setDefaultBounds b (newPaintDevice cs))).
Proof.
  unfold lazyAllocateStaticCache. intros Hrun.
  assert (Hfresh :
    (let* p := alloc (newPaintDevice cs) in
     update p (setDefaultBounds b) >>
     ret (mkStaticCacheStorage (staticCacheIsOverridden s) (staticCacheValid s)
            p (paramsForStaticImage s))) e = Some (s', e') ->
    staticCacheIsOverridden s' = staticCacheIsOverridden s /\
    staticCacheValid s' = staticCacheValid s /\
    paramsForStaticImage s' = paramsForStaticImage s /\
    trace e' = trace e /\
    (forall (a : nat) d, heap e !! a = Some d -> heap e' !! a = Some d) /\
    exists (c : nat) d,
      staticCacheDevice s' = Some c /\ heap e' !! c = Some d /\
      ((s' = s /\ e' = e) \/
       (heap e !! c = None /\ d = setDefaultBounds b (newPaintDevice cs)))).
  { rewrite lazyAllocate_fresh. intros [= <- <-]. cbn.
    repeat (split; [reflexivity|]). split.
    - intros a d Ha. rewrite lookup_app_l; [exact Ha|].
      exact (lookup_lt_Some _ _ _ Ha).
    - exists (length (heap e)), (setDefaultBounds b (newPaintDevice cs)).
      split; [reflexivity|]. split; [apply list_lookup_middle; reflexivity|].
      right. split; [apply lookup_ge_None; lia | reflexivity]. }
  destruct (staticCacheDevice s) as [c|] eqn:Hc.
  - unfold bind at 1 in Hrun. unfold bind at 1 in Hrun. unfold deref in Hrun.
    destruct (heap e !! c) as [d|] eqn:Hd; [|discriminate Hrun].
    cbn [ret] in Hrun.
    destruct (negb (colorSpaceEq (colorSpace d) cs)).
    + apply Hfresh. exact Hrun.
    + injection Hrun as <- <-.
      repeat (split; [reflexivity|]). split; [auto|].
      exists c, d. split; [exact Hc|]. split; [exact Hd|]. left. auto.
  - unfold bind at 1 in Hrun. cbn [ret] in Hrun. apply Hfresh. exact Hrun.
Qed.

(** X12. [lazyAllocateStaticCache] is idempotent: provided a device made
    for a colour space reports a colour space equal to it, a second call
    with the same arguments changes neither the cache nor the store. *)
Theorem lazyAllocateStaticCache_idempotent cs b s e s1 e1 :
  colorSpaceEq (colorSpace (setDefaultBounds b (newPaintDevice cs))) cs = true ->
  lazyAllocateStaticCache cs b s e = Some (s1, e1) ->
  lazyAllocateStaticCache cs b s1 e1 = Some (s1, e1).
Proof.
  intros Hlaw Hrun.
  assert (Hkeep : forall (c : nat) d,
            staticCacheDevice s1 = Some c -> heap e1 !! c = Some d ->
            colorSpaceEq (colorSpace d) cs = true ->
            lazyAllocateStaticCache cs b s1 e1 = Some (s1, e1)).
  { intros c d Hc Hd Heq. unfold lazyAllocateStaticCache. rewrite Hc.
    erewrite bind_run by (erewrite bind_run by (apply deref_live; exact Hd);
                          reflexivity).
    rewrite Heq. reflexivity. }
  unfold lazyAllocateStaticCache in Hrun.
  destruct (staticCacheDevice s) as [c|] eqn:Hc.
  - unfold bind at 1 in Hrun. unfold bind at 1 in Hrun. unfold deref in Hrun.
    destruct (heap e !! c) as [d|] eqn:Hd; [|discriminate Hrun].
    cbn [ret] in Hrun.
    destruct (colorSpaceEq (colorSpace d) cs) eqn:Heq; cbn [negb] in Hrun.
    + injection Hrun as <- <-. exact (Hkeep c d Hc Hd Heq).
    + rewrite lazyAllocate_fresh in Hrun. injection Hrun as <- <-.
      apply (Hkeep (length (heap e)) (setDefaultBounds b (newPaintDevice cs)));
        [reflexivity | apply list_lookup_middle; reflexivity | exact Hlaw].
  - unfold bind at 1 in Hrun. cbn [ret] in Hrun.
    rewrite lazyAllocate_fresh in Hrun. injection Hrun as <- <-.
    apply (Hkeep (length (heap e)) (setDefaultBounds b (newPaintDevice cs)));
      [reflexivity | apply list_lookup_middle; reflexivity | exact Hlaw].
Qed.


(** X13. The validity life cycle.  After [setDeviceCacheValid(p)] the cache
    is valid for exactly what [p] compares equal to: [isCacheValid(Q)]
    answers [p->compareTransform(Q)] for a non-null [p], whatever the cache
    held before.  After [invalidateDeviceCache] it answers [false] for every
    [Q] without tripping its assertion, and a second invalidation leaves the
    same state. *)
Theorem validity_life_cycle s e (p : Params) Q :
  exists s1 e1 s2 e2 e3,
    setDeviceCacheValid (Some p) s e = Some (s1, e1) /\
    isCacheValid Q s1 e1 = Some (compareTransform p Q, e1) /\
    invalidateDeviceCache s1 e1 = Some (s2, e2) /\
    isCacheValid Q s2 e2 = Some (false, e2) /\
    invalidateDeviceCache s2 e2 = Some (s2, e3) /\
    staticCacheDevice s2 = staticCacheDevice s /\
    staticCacheIsOverridden s2 = staticCacheIsOverridden s.
Proof.
  destruct s as [ov v d ps].
  destruct ov; do 5 eexists;
    repeat (split; [reflexivity|]); reflexivity.
Qed.

(** X14. Overriding the cache with its own device loses the picture: when
    the device passed to [overrideStaticCacheDevice] is the cache device
    itself, the cache is cleared before it is read, so what it holds
    afterwards is computed from the cleared device alone, and the cache is
    nevertheless marked overridden and valid. *)
Theorem overrideStaticCacheDevice_with_own_device s e (c : nat) cv :
  staticCacheDevice s = Some c -> heap e !! c = Some cv ->
  let cleared := clear cv in
  overrideStaticCacheDevice (Some c) s e
  = Some (mkStaticCacheStorage true true (Some c) None,
          mkEnv (<[c := copyAreaOptimized (topLeft (extent cleared)) cleared
                           cleared (extent cleared)]> (heap e))
                (trace e)).
Proof.
  intros Hc Hcv cleared. unfold overrideStaticCacheDevice. rewrite Hc.
  erewrite bind_run by (apply update_live; exact Hcv).
  assert (Hc1 : <[c := cleared]> (heap e) !! c = Some cleared)
    by (apply (lookup_insert_same _ _ cv); exact Hcv).
  erewrite bind_run.
  2:{ erewrite bind_run by (apply deref_live; exact Hc1).
      apply update_live. exact Hc1. }
  cbn [ret heap trace sp_bool]. rewrite list_insert_insert_eq. reflexivity.
Qed.

End StaticCacheMoreFacts.

(* ===================================================================== *)
(** * KisTransformMask: parameters, timed updates, extent *)
(* ===================================================================== *)

Section EntryPointFacts.
Context {PD : PaintDeviceInterface} {TI : TransformInterface}
        {PI : KisTransformMaskParamsInterface}.

Implicit Types (m : KisTransformMask) (e : Env).

(** X15. [setTransformParams] always invalidates the static cache and
    starts the compressor, for every holder and every argument.  With null
    parameters the guard of [setTransformParamsWithUndo] only keeps the
    holder as it was: the cache is invalidated and the compressor started
    all the same.  Afterwards [staticImageCacheIsValid] answers [false]. *)
Theorem setTransformParams_invalidates applyParams
    (params : KisTransformMaskParamsInterfaceSP) m e :
  exists m' pre,
    let e' := mkEnv (heap e) (trace e ++ pre ++ [CompressorStart]) in
    setTransformParams applyParams params m e = Some (m', e') /\
    (forall ev, In ev pre -> exists line, ev = SafeAssertFailed line) /\
    staticCacheValid (staticCache m') = false /\
    paramsForStaticImage (staticCache m') = None /\
    paramsHolder m'
    = match params with
      | Some p => applyParams p (paramsHolder m)
      | None => paramsHolder m
      end /\
    (params = None -> In (SafeAssertFailed 247) pre) /\
    staticImageCacheIsValid m' e' = Some (false, e').
Proof.
  destruct m as [par busy w h [ov v d ps] rec extra area test].
  unfold setTransformParams, staticImageCacheIsValid, invalidateDeviceCache.
  destruct params as [p|]; destruct ov.
  - eexists _, [SafeAssertFailed 117]. cbv zeta. split.
    { unfold bind, emit, ret, assert_noop. cbn. rewrite <- ?app_assoc. reflexivity. }
    split; [intros ev [<-|[]]; eexists; reflexivity|].
    repeat (split; [reflexivity|]). split; [discriminate | reflexivity].
  - eexists _, []. cbv zeta. split.
    { unfold bind, emit, ret, assert_noop. cbn. rewrite <- ?app_assoc. reflexivity. }
    split; [intros ev []|].
    repeat (split; [reflexivity|]). split; [discriminate | reflexivity].
  - eexists _, [SafeAssertFailed 247; SafeAssertFailed 117]. cbv zeta. split.
    { unfold bind, emit, ret, assert_noop. cbn. rewrite <- ?app_assoc. reflexivity. }
    split; [intros ev [<-|[<-|[]]]; eexists; reflexivity|].
    repeat (split; [reflexivity|]). split; [intros _; left; reflexivity | reflexivity].
  - eexists _, [SafeAssertFailed 247]. cbv zeta. split.
    { unfold bind, emit, ret, assert_noop. cbn. rewrite <- ?app_assoc. reflexivity. }
    split; [intros ev [<-|[]]; eexists; reflexivity|].
    repeat (split; [reflexivity|]). split; [intros _; left; reflexivity | reflexivity].
Qed.


Lemma startAsyncRegenerationJob_trace m e :
  exists m' evs,
    startAsyncRegenerationJob m e = Some (m', mkEnv (heap e) (trace e ++ evs)) /\
    ~ In CompressorStop evs /\
    staticCache m' = staticCache m.
Proof.
  unfold startAsyncRegenerationJob.
  assert (Hidle : exists m' evs,
            ret m e = Some (m', mkEnv (heap e) (trace e ++ evs)) /\
            ~ In CompressorStop evs /\ staticCache m' = staticCache m).
  { exists m, []. rewrite app_nil_r. destruct e.
    split; [reflexivity | split; [intros [] | reflexivity]]. }
  destruct (parent m) as [p|]; [|exact Hidle].
  destruct (isKisLayer p); [|exact Hidle]. cbn [negb].
  destruct (image p) as [img|]; [|exact Hidle].
  destruct (locked img).
  - exists m, [CompressorStart]. split; [reflexivity|].
    split; [|reflexivity]. intros [Hin|[]]. discriminate Hin.
  - eexists _, [AddSpontaneousJob _]. split; [reflexivity|].
    split; [|reflexivity]. intros [Hin|[]]. discriminate Hin.
Qed.

(** X16. [forceUpdateTimedNode] forces a regeneration exactly when a timed
    update is pending or the cache is not valid for the baked parameters.
    When it does, it does what [forceStartAsyncRegenerationJob] does: the
    cache is invalidated, the compressor is stopped, and then
    [startAsyncRegenerationJob] runs on the mask with the invalidated cache;
    the mask returned is the one that call returns, its cache is the
    invalidated one, and the events after the stop are the events of that
    call.  When it does not, the mask is left as it was and nothing happens
    beyond the possible failed assertion of [isCacheValid].  The store is
    never touched, and the testing interface, when set, is told in both
    cases. *)
Theorem forceUpdateTimedNode_forces_iff (pendingTimedUpdates : bool) m e :
  let notes := if testingInterface m then [NotifyForceUpdateTimedNode] else [] in
  let invalidated :=
    set_staticCache
      (mkStaticCacheStorage (staticCacheIsOverridden (staticCache m)) false
         (staticCacheDevice (staticCache m)) None) m in
  let stale :=
    pendingTimedUpdates = true \/
    servesParams (staticCache m) (bakeIntoParams (paramsHolder m)) = false in
  exists m' pre rest,
    forceUpdateTimedNode pendingTimedUpdates m e
    = Some ((m', notes), mkEnv (heap e) (trace e ++ pre ++ rest)) /\
    (forall ev, In ev pre ->
       ev = SafeAssertFailed 55 \/ ev = SafeAssertFailed 117) /\
    (In CompressorStop rest <-> stale) /\
    (stale ->
     exists job,
       rest = CompressorStop :: job /\
       startAsyncRegenerationJob invalidated
         (mkEnv (heap e) (trace e ++ pre ++ [CompressorStop]))
       = Some (m', mkEnv (heap e) (trace e ++ pre ++ CompressorStop :: job)) /\
       ~ In CompressorStop job /\
       staticCache m' = staticCache invalidated /\
       staticCacheValid (staticCache m') = false) /\
    (~ stale -> rest = [] /\ m' = m).
Proof.
  intros notes invalidated stale. unfold forceUpdateTimedNode. fold notes.
  assert (Hforce : forall pre0 : list Event,
    (forall ev, In ev pre0 -> ev = SafeAssertFailed 55) ->
    exists m' pre job,
      (let* m1 := forceStartAsyncRegenerationJob m in ret (m1, notes))
        (mkEnv (heap e) (trace e ++ pre0))
      = Some ((m', notes),
              mkEnv (heap e) (trace e ++ pre ++ CompressorStop :: job)) /\
      (forall ev, In ev pre ->
         ev = SafeAssertFailed 55 \/ ev = SafeAssertFailed 117) /\
      startAsyncRegenerationJob invalidated
        (mkEnv (heap e) (trace e ++ pre ++ [CompressorStop]))
      = Some (m', mkEnv (heap e) (trace e ++ pre ++ CompressorStop :: job)) /\
      ~ In CompressorStop job /\
      staticCache m' = staticCache invalidated).
  { intros pre0 Hpre0.
    destruct (forceStart_prefix m (mkEnv (heap e) (trace e ++ pre0)))
      as (pre1 & Hrun & Hpre1).
    unfold bind at 1. rewrite Hrun. cbn [heap trace]. fold invalidated.
    destruct (startAsyncRegenerationJob_trace invalidated
                (mkEnv (heap e) ((trace e ++ pre0) ++ pre1 ++ [CompressorStop])))
      as (m' & job & Hstart & Hno & Hcache).
    cbn [heap trace] in Hstart.
    assert (Hmid : (trace e ++ pre0) ++ pre1 ++ [CompressorStop]
                   = trace e ++ (pre0 ++ pre1) ++ [CompressorStop])
      by (rewrite <- !app_assoc; reflexivity).
    assert (Hend : ((trace e ++ pre0) ++ pre1 ++ [CompressorStop]) ++ job
                   = trace e ++ (pre0 ++ pre1) ++ CompressorStop :: job)
      by (rewrite <- !app_assoc; reflexivity).
    rewrite Hend in Hstart.
    exists m', (pre0 ++ pre1), job. split.
    - rewrite Hstart. reflexivity.
    - split.
      + intros ev Hin. apply in_app_or in Hin as [Hin|Hin].
        * left. exact (Hpre0 ev Hin).
        * right. rewrite Hpre1 in Hin.
          destruct (staticCacheIsOverridden (staticCache m)); [|destruct Hin].
          destruct Hin as [<-|[]]. reflexivity.
      + split; [rewrite <- Hmid; exact Hstart|]. split; assumption. }
  assert (Hdone : forall m' pre job,
    stale ->
    (forall ev, In ev pre ->
       ev = SafeAssertFailed 55 \/ ev = SafeAssertFailed 117) ->
    startAsyncRegenerationJob invalidated
      (mkEnv (heap e) (trace e ++ pre ++ [CompressorStop]))
    = Some (m', mkEnv (heap e) (trace e ++ pre ++ CompressorStop :: job)) ->
    ~ In CompressorStop job ->
    staticCache m' = staticCache invalidated ->
    (forall ev, In ev pre ->
       ev = SafeAssertFailed 55 \/ ev = SafeAssertFailed 117) /\
    (In CompressorStop (CompressorStop :: job) <-> stale) /\
    (stale ->
     exists job0,
       CompressorStop :: job = CompressorStop :: job0 /\
       startAsyncRegenerationJob invalidated
         (mkEnv (heap e) (trace e ++ pre ++ [CompressorStop]))
       = Some (m', mkEnv (heap e) (trace e ++ pre ++ CompressorStop :: job0)) /\
       ~ In CompressorStop job0 /\
       staticCache m' = staticCache invalidated /\
       staticCacheValid (staticCache m') = false) /\
    (~ stale -> CompressorStop :: job = [] /\ m' = m)).
  { intros m' pre job Hstale Hpre Hstart Hno Hcache.
    split; [exact Hpre|]. split; [split; [intros _; exact Hstale | intros _; left; reflexivity]|].
    split; [|intros Hn; contradiction].
    intros _. exists job. split; [reflexivity|]. split; [exact Hstart|].
    split; [exact Hno|]. split; [exact Hcache|]. rewrite Hcache. reflexivity. }
  destruct pendingTimedUpdates.
  - erewrite bind_run by reflexivity. cbv beta iota.
    destruct (Hforce []) as (m' & pre & job & Hrun & Hpre & Hstart & Hno & Hcache);
      [intros ev []|].
    rewrite app_nil_r in Hrun. destruct e as [h t]. cbn [heap trace] in *.
    exists m', pre, (CompressorStop :: job).
    split; [exact Hrun|].
    apply Hdone; [left; reflexivity | assumption..].
  - unfold isCacheValid.
    destruct (assert_noop_heap 55
                (negb (staticCacheValid (staticCache m))
                 || sp_bool (paramsForStaticImage (staticCache m))
                 || staticCacheIsOverridden (staticCache m)) e)
      as (e1 & Hassert & Hheap).
    assert (Hpre : exists pre, e1 = mkEnv (heap e) (trace e ++ pre) /\
                               forall ev, In ev pre -> ev = SafeAssertFailed 55).
    { destruct (negb (staticCacheValid (staticCache m))
                || sp_bool (paramsForStaticImage (staticCache m))
                || staticCacheIsOverridden (staticCache m)).
      - exists []. injection Hassert as <-. rewrite app_nil_r. destruct e.
        split; [reflexivity | intros ev []].
      - exists [SafeAssertFailed 55]. injection Hassert as <-.
        split; [reflexivity|]. intros ev [<-|[]]. reflexivity. }
    destruct Hpre as (pre0 & -> & Hpre0).
    erewrite bind_run.
    2:{ erewrite bind_run by (erewrite bind_run by exact Hassert; reflexivity).
        reflexivity. }
    fold (servesParams (staticCache m) (bakeIntoParams (paramsHolder m))).
    subst stale.
    destruct (servesParams (staticCache m) (bakeIntoParams (paramsHolder m)));
      cbn [negb].
    + exists m, pre0, []. rewrite app_nil_r.
      split; [reflexivity|].
      split; [intros ev Hin; left; exact (Hpre0 ev Hin)|].
      split; [split; [intros [] | intros [Hf|Hf]; discriminate Hf]|].
      split; [intros [Hf|Hf]; discriminate Hf | intros _; split; reflexivity].
    + destruct (Hforce pre0 Hpre0)
        as (m' & pre & job & Hrun & Hpre & Hstart & Hno & Hcache).
      exists m', pre, (CompressorStop :: job).
      split; [exact Hrun|].
      apply Hdone; [right; reflexivity | assumption..].
Qed.

Lemma united_covers_right a b :
  int_sized b -> isEmpty b = false -> covers (united a b) b.
Proof.
  intros Hs Hb. destruct (nonempty_bounds b Hb) as [Hbx Hby].
  unfold united. destruct (isNull a); [apply covers_refl|].
  rewrite (nonempty_not_null b Hs Hb).
  unfold int_sized in Hs.
  rewrite (backwards_false (x1 b) (x2 b)), (backwards_false (y1 b) (y2 b))
    by lia.
  unfold covers. cbn [x1 y1 x2 y2]. lia.
Qed.

(** X17. The extent of a transform mask.  Without a parent layer it is the
    null rectangle, whatever the parameters.  With a parent layer, whenever
    [extent()] has a value it covers the extent of the parent's existing
    projection, when that is a non-empty rectangle whose coordinates, width
    and height fit an [int], whatever [changeRect] made of the partial
    change rectangle. *)
Theorem extent_of_mask_covers_projection rc view m :
  (parentLayer m = None -> extent_of_mask rc view m = Some QRect_null) /\
  (forall p r,
     parentLayer m = Some p -> extent_of_mask rc view m = Some r ->
     int_sized (projectionExtent view) ->
     isEmpty (projectionExtent view) = false ->
     covers r (projectionExtent view)).
Proof.
  unfold extent_of_mask. split.
  - intros ->. reflexivity.
  - intros p r -> Hr Hs Hne.
    destruct (changeRect (partialChangeRect view rc) N_FILTHY m) as [changed|];
      [|discriminate Hr].
    injection Hr as <-. apply united_covers_right; assumption.
Qed.

End EntryPointFacts.

(* ===================================================================== *)
(** * KisPaintOpPresetUpdateProxy: nesting and what is never emitted *)
(* ===================================================================== *)

Section UpdateProxyMoreFacts.
Import UpdateProxy.

Implicit Types (d : Private) (k n : nat) (cs : list Call).

Lemma held_back_counted cs d :
  Forall held_back cs ->
  updatesBlocked d <> 0 -> 0 <= numUpdatesWhileBlocked d ->
  numUpdatesWhileBlocked d + Z.of_nat (length cs) <= INT_MAX ->
  calls cs d
  = (mkPrivate (updatesBlocked d) (numUpdatesWhileBlocked d + Z.of_nat (length cs)),
     []).
Proof.
  intros Hcs. revert d. induction Hcs as [|c cs Hc _ IH]; intros d Hb Hlo Hhi.
  - cbn. rewrite Z.add_0_r. destruct d; reflexivity.
  - cbn [length] in Hhi. rewrite Nat2Z.inj_succ in Hhi.
    assert (Hstep : call c d
              = (mkPrivate (updatesBlocked d) (numUpdatesWhileBlocked d + 1), [])).
    { destruct Hc as [-> | ->]; cbn [call];
        unfold notifySettingsChanged, slotDeliverSettingsChanged;
        (destruct (Z.eqb_spec (updatesBlocked d) 0) as [Heq|_]; [contradiction|]);
        cbn [negb]; rewrite int_wrap_in_range by (unfold INT_MAX in *; lia);
        reflexivity. }
    cbn [calls]. rewrite Hstep.
    rewrite IH; cbn [updatesBlocked numUpdatesWhileBlocked]; [|exact Hb|lia|lia].
    cbn [length]. rewrite Nat2Z.inj_succ. f_equal. f_equal. lia.
Qed.

Lemma postponed_k_times k d :
  0 <= updatesBlocked d -> updatesBlocked d + Z.of_nat k <= INT_MAX ->
  calls (replicate k CallPostpone) d
  = (mkPrivate (updatesBlocked d + Z.of_nat k) (numUpdatesWhileBlocked d), []).
Proof.
  revert d. induction k as [|k IH]; intros d Hlo Hhi.
  - cbn. rewrite Z.add_0_r. destruct d; reflexivity.
  - rewrite Nat2Z.inj_succ in Hhi.
    cbn [replicate calls call]. unfold postponeSettingsChanges.
    rewrite int_wrap_in_range by (unfold INT_MAX in *; lia).
    rewrite IH; cbn [updatesBlocked numUpdatesWhileBlocked]; [|lia|lia].
    rewrite Nat2Z.inj_succ. f_equal. f_equal. lia.
Qed.

Lemma unpostponed_k_times k d :
  (1 <= k)%nat -> Z.of_nat k <= updatesBlocked d -> updatesBlocked d <= INT_MAX ->
  numUpdatesWhileBlocked d <> 0 ->
  calls (replicate k CallUnpostpone) d
  = if updatesBlocked d =? Z.of_nat k then (initial, triple)
    else (mkPrivate (updatesBlocked d - Z.of_nat k) (numUpdatesWhileBlocked d), []).
Proof.
  revert d. induction k as [|k IH]; intros d Hk Hlo Hhi Hnum; [lia|].
  cbn [replicate calls call]. unfold unpostponeSettingsChanges.
  rewrite int_wrap_in_range by (unfold INT_MAX in *; lia).
  replace (numUpdatesWhileBlocked d =? 0) with false
    by (symmetry; apply Z.eqb_neq; exact Hnum).
  cbn [negb]. rewrite andb_true_r.
  destruct (Z.eqb_spec (updatesBlocked d - 1) 0) as [Hone|Hmore].
  - destruct k as [|k]; [|lia]. cbn [replicate calls].
    replace (updatesBlocked d =? Z.of_nat 1) with true
      by (symmetry; apply Z.eqb_eq; lia).
    rewrite Hone. reflexivity.
  - destruct k as [|k].
    + cbn [replicate calls app].
      replace (updatesBlocked d =? Z.of_nat 1) with false
        by (symmetry; apply Z.eqb_neq; lia).
      f_equal; f_equal; lia.
    + rewrite IH; cbn [updatesBlocked numUpdatesWhileBlocked];
        [|lia|lia|unfold INT_MAX in *; lia|exact Hnum].
      destruct (Z.eqb_spec (updatesBlocked d - 1) (Z.of_nat (S k))) as [E|E].
      * replace (updatesBlocked d =? Z.of_nat (S (S k))) with true
          by (symmetry; apply Z.eqb_eq; lia).
        reflexivity.
      * replace (updatesBlocked d =? Z.of_nat (S (S k))) with false
          by (symmetry; apply Z.eqb_neq; lia).
        cbn [app]. f_equal; f_equal; lia.
Qed.

(** X18. Postponements nest, and a postponement holds back the compressor's
    timeout as well as notifications.  On a fresh proxy, k nested
    [postponeSettingsChanges] calls, then any non-empty series of
    notifications and timeouts, then j [unpostponeSettingsChanges] calls emit
    nothing while j < k, and with j = k they emit the early warning, the
    uncompressed signal and [sigSettingsChanged] exactly once each, in this
    order, and leave the proxy as new. *)
Theorem nested_postponement_coalesces k j cs :
  (1 <= j <= k)%nat -> Z.of_nat k <= INT_MAX ->
  cs <> [] -> Forall held_back cs -> Z.of_nat (length cs) <= INT_MAX ->
  snd (calls (replicate k CallPostpone ++ cs ++ replicate j CallUnpostpone) initial)
  = (if (j =? k)%nat then triple else []) /\
  (j = k ->
   fst (calls (replicate k CallPostpone ++ cs ++ replicate j CallUnpostpone) initial)
   = initial).
Proof.
  intros Hj Hk Hne Hcs Hlen.
  assert (Hlen1 : (1 <= length cs)%nat)
    by (destruct cs; [contradiction | cbn; lia]).
  rewrite calls_app.
  rewrite postponed_k_times by (cbn; lia).
  cbn [updatesBlocked numUpdatesWhileBlocked initial].
  rewrite calls_app.
  rewrite held_back_counted; cbn [updatesBlocked numUpdatesWhileBlocked];
    [|exact Hcs|lia|lia|lia].
  rewrite unpostponed_k_times; cbn [updatesBlocked numUpdatesWhileBlocked];
    [|lia|lia|lia|lia].
  destruct (Z.eqb_spec (0 + Z.of_nat k) (Z.of_nat j)) as [Heq|Hneq].
  - assert (j = k) by lia. subst j. rewrite Nat.eqb_refl.
    split; [reflexivity | intros _; reflexivity].
  - assert (Hjk : j <> k) by lia.
    apply Nat.eqb_neq in Hjk. rewrite Hjk. split; [reflexivity | intros ->].
    apply Nat.eqb_neq in Hjk. contradiction.
Qed.

(** X19. The terminal signal has two sources only: whatever the state of
    the proxy, a series of calls without [unpostponeSettingsChanges] and
    without the compressor's timeout never emits [sigSettingsChanged]. *)
Theorem sigSettingsChanged_only_from_unpostpone_or_timeout cs d :
  Forall (fun c => c <> CallUnpostpone /\ c <> CallTimeout) cs ->
  ~ In sigSettingsChanged (snd (calls cs d)).
Proof.
  intros Hcs. revert d. induction Hcs as [|c cs [Hu Ht] _ IH]; intros d.
  - intros [].
  - cbn [calls]. destruct (call c d) as [d1 out1] eqn:Hcall.
    specialize (IH d1). destruct (calls cs d1) as [d2 out2]. cbn [snd] in *.
    intros Hin. apply in_app_or in Hin as [Hin|Hin]; [|exact (IH Hin)].
    destruct c; cbn [call] in Hcall; try contradiction.
    + unfold notifySettingsChanged in Hcall.
      destruct (negb (updatesBlocked d =? 0)); injection Hcall as <- <-.
      * destruct Hin.
      * destruct Hin as [Hin|[Hin|[Hin|[]]]]; discriminate Hin.
    + injection Hcall as <- <-. destruct Hin as [Hin|[]]. discriminate Hin.
    + injection Hcall as <- <-. destruct Hin.
Qed.

(** X20. An unpostpone without a postpone is not caught: it leaves the
    counter at -1, so that the following notifications are held back; a
    later [postponeSettingsChanges] brings the counter to zero without
    delivering them, and the stale count makes the next balanced
    postpone/unpostpone pair emit the three signals although nothing was
    notified in between. *)
Theorem unmatched_unpostpone_swallows n :
  (1 <= n)%nat -> Z.of_nat n <= INT_MAX ->
  calls ([CallUnpostpone] ++ replicate n CallNotify ++ [CallPostpone]) initial
  = (mkPrivate 0 (Z.of_nat n), []) /\
  calls [CallPostpone; CallUnpostpone] (mkPrivate 0 (Z.of_nat n))
  = (initial, triple).
Proof.
  intros Hn Hmax. split.
  - change ([CallUnpostpone] ++ replicate n CallNotify ++ [CallPostpone])
      with (CallUnpostpone :: (replicate n CallNotify ++ [CallPostpone])).
    cbn [calls call].
    change (unpostponeSettingsChanges initial) with (mkPrivate (-1) 0, @nil Signal).
    cbv beta iota. rewrite calls_app.
    rewrite notify_while_postponed;
      cbn [updatesBlocked numUpdatesWhileBlocked]; [|lia|lia|lia].
    reflexivity.
  - cbn [calls call]. unfold postponeSettingsChanges, unpostponeSettingsChanges.
    cbn [updatesBlocked numUpdatesWhileBlocked].
    change (int_wrap (0 + 1)) with 1. change (int_wrap (1 - 1)) with 0.
    destruct (Z.eqb_spec (Z.of_nat n) 0) as [Hz|_]; [lia|]. reflexivity.
Qed.

End UpdateProxyMoreFacts.

(* ===================================================================== *)
(** * KisImageSignalRouter: frame invalidation, bursts *)
(* ===================================================================== *)

Section SignalRouterMoreFacts.
Import SignalRouter.
Context {QPointF KoColorProfile KoColorSpace KisNode Resolution : Type}.

Abbreviation SignalType' := (@KisImageSignalType QPointF KisNode).
Abbreviation ImageWSP := (@KisImageWSP KoColorProfile KoColorSpace Resolution).
Abbreviation RouterAction :=
  (@Action QPointF KoColorProfile KoColorSpace KisNode Resolution).

(** X21. [slotNotification] invalidates the frame caches of a live image
    exactly for the kinds layers-changed, size-changed, profile-changed,
    colour-space-changed and resolution-changed, never for
    modified-without-undo or a reselection request; when it does, the
    invalidation comes first and exactly one subscriber signal follows. *)
Theorem slotNotification_invalidates_frames_iff image (type : SignalType') :
  let out : list RouterAction := slotNotification (Some image) type in
  (In invalidateAllFrames out <-> changes_frames (id type)) /\
  (changes_frames (id type) ->
   exists sg, out = [invalidateAllFrames; sg] /\ delivered sg = true).
Proof.
  cbv zeta. unfold slotNotification, changes_frames.
  destruct (id type) eqn:Hid; (split; [split|]).
  all: try (intros _; eexists; split; reflexivity).
  all: try (intros _; left; reflexivity).
  all: try (intros _; auto 6; fail).
  all: try (intros [Hin|[Hin|[]]]; discriminate Hin).
  all: try (intros [Hk|[Hk|[Hk|[Hk|Hk]]]]; discriminate Hk).
  all: destruct (sp_bool (newActiveNode (nodeReselectionSignal type))
                 || negb (list_isEmpty (newSelectedNodes (nodeReselectionSignal type)))).
  all: try (intros [Hin|[]]; discriminate Hin).
  all: try (intros []).
Qed.

Lemma slotNotification_delivers_at_most_one (m_image : ImageWSP)
    (type : SignalType') :
  (length (List.filter delivered (slotNotification m_image type)) <= 1)%nat /\
  (forall t', ~ In (sigNotification t') (slotNotification m_image type)) /\
  (m_image = None -> slotNotification m_image type = []).
Proof.
  unfold slotNotification. destruct m_image as [image|].
  2:{ split; [cbn; lia|]. split; [intros t' [] | reflexivity]. }
  split; [|split; [|discriminate]].
  - destruct (id type); cbn; try lia.
    destruct (sp_bool _ || negb _); cbn; lia.
  - intros t'. destruct (id type).
    all: try (intros [Hin|[Hin|[]]]; discriminate Hin).
    all: try (intros [Hin|[]]; discriminate Hin).
    destruct (sp_bool _ || negb _); [intros [Hin|[]]; discriminate Hin | intros []].
Qed.

(** X22. A burst never fans out: [emitNotifications] sends at most one
    subscriber signal per notification, and none at all once the router's
    image is gone; what a notification leaves in the queue is handled by
    [slotNotification] without queueing anything again. *)
Theorem emitNotifications_at_most_one_signal_each (m_image : ImageWSP)
    (notifications : list SignalType') :
  (length (List.filter delivered (emitNotifications m_image notifications))
   <= length notifications)%nat /\
  (m_image = None ->
   List.filter delivered (emitNotifications m_image notifications) = []) /\
  (forall type t', In (sigNotification type) (emitNotifications m_image notifications) ->
     ~ In (sigNotification t') (slotNotification m_image type)).
Proof.
  assert (Hone : forall t : SignalType',
            (length (List.filter delivered (emitNotification m_image t)) <= 1)%nat /\
            (m_image = None -> List.filter delivered (emitNotification m_image t) = [])).
  { intros t. unfold emitNotification, emitNotification_dispatch.
    destruct (slotNotification_delivers_at_most_one m_image t) as (Hlen & _ & Hnone).
    destruct (id t); cbn [List.filter delivered length];
      try (split; [lia | reflexivity]);
      (split; [exact Hlen | intros Hi; rewrite (Hnone Hi); reflexivity]). }
  unfold emitNotifications. split; [|split].
  - induction notifications as [|t ts IH]; [cbn; lia|].
    cbn [map concat length]. rewrite List.filter_app, length_app.
    destruct (Hone t) as [Ht _]. lia.
  - intros Hnone. induction notifications as [|t ts IH]; [reflexivity|].
    cbn [map concat]. rewrite List.filter_app, IH.
    rewrite (proj2 (Hone t) Hnone). reflexivity.
  - intros type t' _.
    exact (proj1 (proj2 (slotNotification_delivers_at_most_one m_image type)) t').
Qed.

End SignalRouterMoreFacts.

(* ===================================================================== *)
(** * The round trip through changeRect and needRect *)
(* ===================================================================== *)

Section AffineMapFacts.
Local Open Scope Q_scope.

Lemma least_le p q : least p q <= p /\ least p q <= q.
Proof.
  unfold least. destruct (Qle_bool p q) eqn:H.
  - apply Qle_bool_iff in H. split; [apply Qle_refl | exact H].
  - assert (~ p <= q) by (intros Hle; apply Qle_bool_iff in Hle; congruence).
    split; [|apply Qle_refl]. apply Qlt_le_weak. apply Qnot_le_lt. assumption.
Qed.

Lemma greatest_ge p q : p <= greatest p q /\ q <= greatest p q.
Proof.
  unfold greatest. destruct (Qle_bool p q) eqn:H.
  - apply Qle_bool_iff in H. split; [exact H | apply Qle_refl].
  - assert (~ p <= q) by (intros Hle; apply Qle_bool_iff in Hle; congruence).
    split; [apply Qle_refl|]. apply Qlt_le_weak. apply Qnot_le_lt. assumption.
Qed.

Lemma least4_le a b c d :
  least4 a b c d <= a /\ least4 a b c d <= b /\
  least4 a b c d <= c /\ least4 a b c d <= d.
Proof.
  unfold least4.
  destruct (least_le (least a b) (least c d)) as [H1 H2].
  destruct (least_le a b) as [Ha Hb]. destruct (least_le c d) as [Hc Hd].
  split; [exact (Qle_trans _ _ _ H1 Ha)|].
  split; [exact (Qle_trans _ _ _ H1 Hb)|].
  split; [exact (Qle_trans _ _ _ H2 Hc) | exact (Qle_trans _ _ _ H2 Hd)].
Qed.

Lemma greatest4_ge a b c d :
  a <= greatest4 a b c d /\ b <= greatest4 a b c d /\
  c <= greatest4 a b c d /\ d <= greatest4 a b c d.
Proof.
  unfold greatest4.
  destruct (greatest_ge (greatest a b) (greatest c d)) as [H1 H2].
  destruct (greatest_ge a b) as [Ha Hb]. destruct (greatest_ge c d) as [Hc Hd].
  split; [exact (Qle_trans _ _ _ Ha H1)|].
  split; [exact (Qle_trans _ _ _ Hb H1)|].
  split; [exact (Qle_trans _ _ _ Hc H2) | exact (Qle_trans _ _ _ Hd H2)].
Qed.

(** An affine function on a rectangle lies between its values at the
    corners. *)
Lemma affine_between p q r U1 U2 V1 V2 u v :
  U1 <= u -> u <= U2 -> V1 <= v -> v <= V2 ->
  let h x y := p * x + q * y + r in
  least4 (h U1 V1) (h U2 V1) (h U1 V2) (h U2 V2) <= h u v /\
  h u v <= greatest4 (h U1 V1) (h U2 V1) (h U1 V2) (h U2 V2).
Proof.
  intros Hu1 Hu2 Hv1 Hv2 h.
  destruct (least4_le (h U1 V1) (h U2 V1) (h U1 V2) (h U2 V2))
    as (L1 & L2 & L3 & L4).
  destruct (greatest4_ge (h U1 V1) (h U2 V1) (h U1 V2) (h U2 V2))
    as (G1 & G2 & G3 & G4).
  unfold h in *.
  destruct (Qlt_le_dec p 0) as [Hp|Hp]; destruct (Qlt_le_dec q 0) as [Hq|Hq].
  - split.
    + eapply Qle_trans; [exact L4|]. nra.
    + eapply Qle_trans; [|exact G1]. nra.
  - split.
    + eapply Qle_trans; [exact L2|]. nra.
    + eapply Qle_trans; [|exact G3]. nra.
  - split.
    + eapply Qle_trans; [exact L3|]. nra.
    + eapply Qle_trans; [|exact G2]. nra.
  - split.
    + eapply Qle_trans; [exact L1|]. nra.
    + eapply Qle_trans; [|exact G4]. nra.
Qed.

(** The inverted matrix maps the image of a point back to the point. *)
Lemma inverted_x T x y :
  ~ determinant T == 0 ->
  map_x (inverted T) (map_x T x y) (map_y T x y) == x.
Proof.
  intros Hd. unfold map_x, map_y, inverted, determinant in *.
  cbn [m11 m12 m21 m22 dx dy]. field. exact Hd.
Qed.

Lemma inverted_y T x y :
  ~ determinant T == 0 ->
  map_y (inverted T) (map_x T x y) (map_y T x y) == y.
Proof.
  intros Hd. unfold map_x, map_y, inverted, determinant in *.
  cbn [m11 m12 m21 m22 dx dy]. field. exact Hd.
Qed.

(** The image of a point of the area of [rc] lies in the area of
    [mapRect T rc]. *)
Lemma mapRect_contains T rc x y :
  inject_Z (x1 rc) <= x -> x <= inject_Z (x2 rc + 1) ->
  inject_Z (y1 rc) <= y -> y <= inject_Z (y2 rc + 1) ->
  inject_Z (x1 (mapRect T rc)) <= map_x T x y /\
  map_x T x y <= inject_Z (x2 (mapRect T rc) + 1) /\
  inject_Z (y1 (mapRect T rc)) <= map_y T x y /\
  map_y T x y <= inject_Z (y2 (mapRect T rc) + 1).
Proof.
  intros Hx1 Hx2 Hy1 Hy2. unfold mapRect. cbn [x1 y1 x2 y2].
  destruct (affine_between (m11 T) (m21 T) (dx T) _ _ _ _ x y Hx1 Hx2 Hy1 Hy2)
    as [Hlx Hhx].
  destruct (affine_between (m12 T) (m22 T) (dy T) _ _ _ _ x y Hx1 Hx2 Hy1 Hy2)
    as [Hly Hhy].
  fold (map_x T x y) in Hlx, Hhx. fold (map_y T x y) in Hly, Hhy.
  rewrite !Z.sub_add.
  split; [eapply Qle_trans; [apply Qfloor_le | exact Hlx]|].
  split; [eapply Qle_trans; [exact Hhx | apply Qle_ceiling]|].
  split; [eapply Qle_trans; [apply Qfloor_le | exact Hly]|].
  eapply Qle_trans; [exact Hhy | apply Qle_ceiling].
Qed.

Lemma nonempty_area rc :
  isEmpty rc = false ->
  inject_Z (x1 rc) < inject_Z (x2 rc + 1) /\
  inject_Z (y1 rc) < inject_Z (y2 rc + 1).
Proof.
  unfold isEmpty. intros Hne. apply orb_false_elim in Hne as [Hx Hy].
  apply Z.ltb_ge in Hx. apply Z.ltb_ge in Hy.
  split; rewrite <- Zlt_Qlt; lia.
Qed.

(** Without the clamp the round trip covers the rectangle. *)
Lemma mapRect_roundtrip T rc :
  ~ determinant T == 0 -> isEmpty rc = false ->
  covers (mapRect (inverted T) (mapRect T rc)) rc.
Proof.
  intros Hd Hne. destruct (nonempty_area rc Hne) as [Hw Hh].
  set (F := mapRect T rc).
  assert (Hcorner : forall x y,
            inject_Z (x1 rc) <= x -> x <= inject_Z (x2 rc + 1) ->
            inject_Z (y1 rc) <= y -> y <= inject_Z (y2 rc + 1) ->
            inject_Z (x1 (mapRect (inverted T) F)) <= x /\
            x <= inject_Z (x2 (mapRect (inverted T) F) + 1) /\
            inject_Z (y1 (mapRect (inverted T) F)) <= y /\
            y <= inject_Z (y2 (mapRect (inverted T) F) + 1)).
  { intros x y Hx1 Hx2 Hy1 Hy2.
    destruct (mapRect_contains T rc x y Hx1 Hx2 Hy1 Hy2) as (A & B & C & D).
    fold F in A, B, C, D.
    destruct (mapRect_contains (inverted T) F _ _ A B C D) as (A' & B' & C' & D').
    rewrite (inverted_x T x y Hd) in A', B'.
    rewrite (inverted_y T x y Hd) in C', D'.
    auto. }
  destruct (Hcorner (inject_Z (x1 rc)) (inject_Z (y1 rc)))
    as (A & _ & C & _);
    [apply Qle_refl | apply Qlt_le_weak; exact Hw
    | apply Qle_refl | apply Qlt_le_weak; exact Hh |].
  destruct (Hcorner (inject_Z (x2 rc + 1)) (inject_Z (y2 rc + 1)))
    as (_ & B & _ & D);
    [apply Qlt_le_weak; exact Hw | apply Qle_refl
    | apply Qlt_le_weak; exact Hh | apply Qle_refl |].
  rewrite <- Zle_Qle in A, B, C, D.
  unfold covers. lia.
Qed.

Lemma least4_lt_greatest4 a b c d :
  ~ a == b \/ ~ a == c -> least4 a b c d < greatest4 a b c d.
Proof.
  destruct (least4_le a b c d) as (L1 & L2 & L3 & _).
  destruct (greatest4_ge a b c d) as (G1 & G2 & G3 & _).
  intros [Hd|Hd].
  - destruct (Q_dec a b) as [[Hlt|Hgt]|Heq]; [| |contradiction].
    + eapply Qle_lt_trans; [exact L1|].
      eapply Qlt_le_trans; [exact Hlt | exact G2].
    + eapply Qle_lt_trans; [exact L2|].
      eapply Qlt_le_trans; [exact Hgt | exact G1].
  - destruct (Q_dec a c) as [[Hlt|Hgt]|Heq]; [| |contradiction].
    + eapply Qle_lt_trans; [exact L1|].
      eapply Qlt_le_trans; [exact Hlt | exact G3].
    + eapply Qle_lt_trans; [exact L3|].
      eapply Qlt_le_trans; [exact Hgt | exact G1].
Qed.

Lemma floor_le_ceiling_pred p q : p < q -> (Qfloor p <= Qceiling q - 1)%Z.
Proof.
  intros Hlt.
  assert (H : inject_Z (Qfloor p) < inject_Z (Qceiling q)).
  { eapply Qle_lt_trans; [apply Qfloor_le|].
    eapply Qlt_le_trans; [exact Hlt | apply Qle_ceiling]. }
  rewrite <- Zlt_Qlt in H. lia.
Qed.

(** An affine function with a non-zero linear part takes different values
    at two corners of a rectangle of positive width and height. *)
Lemma affine_corners_differ p q r l t rr b :
  l < rr -> t < b -> ~ p == 0 \/ ~ q == 0 ->
  let h x y := p * x + q * y + r in
  ~ h l t == h rr t \/ ~ h l t == h l b.
Proof.
  intros Hw Hh [Hp|Hq] h; unfold h.
  - left. intros Heq. apply Hp.
    assert (Hz : p * (rr - l) == 0) by lra.
    apply Qmult_integral in Hz as [Hz|Hz]; [exact Hz | lra].
  - right. intros Heq. apply Hq.
    assert (Hz : q * (b - t) == 0) by lra.
    apply Qmult_integral in Hz as [Hz|Hz]; [exact Hz | lra].
Qed.

Lemma determinant_rows T :
  ~ determinant T == 0 ->
  (~ m11 T == 0 \/ ~ m21 T == 0) /\ (~ m12 T == 0 \/ ~ m22 T == 0).
Proof.
  unfold determinant. intros Hd. split.
  - destruct (Qeq_dec (m11 T) 0) as [H1|H1]; [|left; exact H1].
    destruct (Qeq_dec (m21 T) 0) as [H2|H2]; [|right; exact H2].
    exfalso. apply Hd. rewrite H1, H2. ring.
  - destruct (Qeq_dec (m12 T) 0) as [H1|H1]; [|left; exact H1].
    destruct (Qeq_dec (m22 T) 0) as [H2|H2]; [|right; exact H2].
    exfalso. apply Hd. rewrite H1, H2. ring.
Qed.

(** An invertible matrix maps a non-empty rectangle to a non-empty one. *)
Lemma mapRect_nonempty T rc :
  ~ determinant T == 0 -> isEmpty rc = false ->
  isEmpty (mapRect T rc) = false.
Proof.
  intros Hd Hne. destruct (nonempty_area rc Hne) as [Hw Hh].
  destruct (determinant_rows T Hd) as [Hx Hy].
  unfold isEmpty, mapRect. cbn [x1 y1 x2 y2].
  apply orb_false_intro; apply Z.ltb_ge; apply floor_le_ceiling_pred;
    apply least4_lt_greatest4.
  - exact (affine_corners_differ (m11 T) (m21 T) (dx T) _ _ _ _ Hw Hh Hx).
  - exact (affine_corners_differ (m12 T) (m22 T) (dy T) _ _ _ _ Hw Hh Hy).
Qed.

End AffineMapFacts.

Section RoundTripFacts.
Context {PD : PaintDeviceInterface}
        (worker : bool -> AffineMatrix -> KisPaintDevice -> KisPaintDevice ->
                  QRect -> KisPaintDevice)
        {PI : @KisTransformMaskParamsInterface PD (safeTransforms worker)}.

Implicit Types (m : @KisTransformMask PD (safeTransforms worker) PI)
               (R rc : QRect) (pos : PositionToFilthy).

(** A non-empty rectangle inside the limiting rectangle is not clamped. *)
Lemma clampedTo_within limiting rc :
  isEmpty rc = false -> covers limiting rc -> clampedTo limiting rc = rc.
Proof.
  intros Hne (A & B & C & D). unfold clampedTo.
  rewrite (Z.max_l (x1 rc)), (Z.max_l (y1 rc)),
          (Z.min_l (x2 rc)), (Z.min_l (y2 rc)) by lia.
  destruct rc as [a b c d]. cbn [x1 y1 x2 y2] in *.
  change (isEmpty (mkQRect a b c d)) with ((c <? a) || (d <? b)) in *.
  rewrite Hne. reflexivity.
Qed.

(** The clamp keeps what lies inside both rectangles. *)
Lemma clampedTo_covers limiting rc R :
  isEmpty R = false -> covers limiting R -> covers rc R ->
  covers (clampedTo limiting rc) R /\
  covers limiting (clampedTo limiting rc).
Proof.
  intros Hne HL Hrc. destruct (nonempty_bounds R Hne) as [Hx Hy].
  unfold covers in *. unfold clampedTo.
  assert (Hr : isEmpty
            (mkQRect (Z.max (x1 rc) (x1 limiting)) (Z.max (y1 rc) (y1 limiting))
                     (Z.min (x2 rc) (x2 limiting)) (Z.min (y2 rc) (y2 limiting)))
          = false).
  { unfold isEmpty. cbn [x1 y1 x2 y2].
    apply orb_false_intro; apply Z.ltb_ge; lia. }
  rewrite Hr. cbn [x1 y1 x2 y2]. lia.
Qed.


End RoundTripFacts.

(* ===================================================================== *)
(** * More of the model at work on concrete inputs *)
(* ===================================================================== *)

Section MoreExamples.
Import Fixture.

(** ** The round trip under the safe transform of the specification *)



Lemma imageBounds_int_sized : int_sized imageBounds.
Proof. unfold int_sized, UpdateProxy.INT_MAX. cbn. lia. Qed.

Lemma requested_in_imageBounds rc :
  In rc requested -> isEmpty rc = false -> covers imageBounds rc.
Proof.
  intros [<-|[<-|[<-|[]]]] Hne; try discriminate Hne; unfold covers; cbn; lia.
Qed.

Lemma takeRect_after_requests_witness :
  covers (forcedStaticUpdateExtraUpdateRect (requestUpdates requested drained))
         (QRect_xywh 10 10 2 2) /\
  forcedStaticUpdateExtraUpdateRect (requestUpdates requested drained)
  = mkQRect 0 0 11 11.
Proof.
  pose proof (takeRect_after_requests imageBounds requested drained
                imageBounds_int_sized requested_in_imageBounds eq_refl) as H.
  unfold takeRect in H. destruct H as (Hall & _).
  split; [|reflexivity].
  apply Hall; [right; right; left; reflexivity | reflexivity].
Defined.

Lemma forced_update_submits_covering_job_witness :
  exists m' pre job,
    slotInternalForceStaticImageUpdate (requestUpdates requested unlocked) env3
    = Some (m', mkEnv (heap env3)
                  (trace env3 ++ pre ++ [CompressorStop; AddSpontaneousJob job])) /\
    covers job (QRect_xywh 0 0 4 4) /\ covers job (QRect_xywh 10 10 2 2).
Proof.
  destruct (forced_update_submits_covering_job imageBounds requested unlocked env3
              unlockedParent (mkKisImage false)
              imageBounds_int_sized requested_in_imageBounds
              eq_refl eq_refl eq_refl eq_refl eq_refl)
    as (m' & pre & job & Hrun & _ & Hall & _).
  exists m', pre, job. split; [exact Hrun|]. split.
  - apply Hall; [left; reflexivity | reflexivity].
  - apply Hall; [right; right; left; reflexivity | reflexivity].
Defined.

Lemma forced_update_deferred_while_locked_witness :
  exists m' pre,
    slotInternalForceStaticImageUpdate (requestUpdates requested drained) env3
    = Some (m', mkEnv (heap env3)
                  (trace env3 ++ pre ++ [CompressorStop; CompressorStart])) /\
    covers (forcedStaticUpdateExtraUpdateRect m') (QRect_xywh 10 10 2 2).
Proof.
  destruct (forced_update_deferred_while_locked imageBounds requested drained env3
              lockedParent (mkKisImage true)
              imageBounds_int_sized requested_in_imageBounds
              eq_refl eq_refl eq_refl eq_refl eq_refl)
    as (m' & pre & Hrun & _ & Hall & _).
  exists m', pre. split; [exact Hrun|].
  apply Hall; [right; right; left; reflexivity | reflexivity].
Defined.

Lemma decorateRect_footprint_witness :
  heap env3_rendered !! 0%nat = heap env3 !! 0%nat.
Proof.
  apply (decorateRect_footprint (Some 0%nat) (Some 1%nat) rc20 N_FILTHY [] mask0 env3
           rc20 (set_worker rendering mask0) env3_rendered eq_refl).
  - discriminate.
  - discriminate.
Defined.

Lemma decorateRect_suppressed_update_witness :
  exists r m' e' evs,
    decorateRect (Some 0%nat) (Some 1%nat) rc20 N_FILTHY [NoTransformMaskUpdates]
      served env3 = Some ((r, m'), e') /\
    trace e' = trace env3 ++ evs /\ ~ In CompressorStart evs /\
    staticCache m' = staticCache served.
Proof.
  do 3 eexists.
  assert (Hrun : decorateRect (Some 0%nat) (Some 1%nat) rc20 N_FILTHY
                   [NoTransformMaskUpdates] served env3
                 = Some ((rc20, served),
                         mkEnv [painted; blank; blank] [BusyProgressIndicatorUpdate]))
    by reflexivity.
  destruct (decorateRect_suppressed_update (Some 0%nat) (Some 1%nat) rc20 N_FILTHY
              [NoTransformMaskUpdates] served env3 _ _ _
              (or_introl eq_refl) Hrun) as (evs & Htrace & Hquiet & _ & Hkeep).
  exists evs. split; [exact Hrun|]. split; [exact Htrace|].
  split; [exact Hquiet | exact (Hkeep eq_refl)].
Defined.


Lemma decorateRect_regeneration_validates_witness :
  exists r m' e',
    decorateRect (Some 0%nat) (Some 1%nat) rc20 N_FILTHY [NoTransformMaskUpdates]
      regenerating env3 = Some ((r, m'), e') /\
    staticCache m' = mkStaticCacheStorage false true (Some 2%nat) (Some shift) /\
    heap e' !! 2%nat
    = Some (mkPointDevice 1 0 [(mkQPoint 12 3, 7%nat); (mkQPoint 15 1, 9%nat)]).
Proof.
  assert (Hrun : decorateRect (Some 0%nat) (Some 1%nat) rc20 N_FILTHY
                   [NoTransformMaskUpdates] regenerating env3
                 = Some ((rc20, set_staticCache regenerated regenerating),
                         mkEnv [painted;
                                mkPointDevice 1 0
                                  [(mkQPoint 12 3, 7%nat); (mkQPoint 15 1, 9%nat)];
                                mkPointDevice 1 0
                                  [(mkQPoint 12 3, 7%nat); (mkQPoint 15 1, 9%nat)]]
                               [BusyProgressIndicatorUpdate]))
    by reflexivity.
  destruct (decorateRect_regeneration_validates (Some 0%nat) (Some 1%nat) rc20
              N_FILTHY [NoTransformMaskUpdates] regenerating shift env3 _ _ _
              eq_refl eq_refl eq_refl eq_refl Hrun) as [Hcache _].
  do 3 eexists. split; [exact Hrun|]. split; [exact Hcache | reflexivity].
Defined.

Lemma decorateRect_external_frame_leaves_cache_witness :
  exists r m' e',
    decorateRect (Some 0%nat) (Some 1%nat) rc20 N_FILTHY [] externalFrame env3
    = Some ((r, m'), e') /\
    trace e' = trace env3 /\ staticCache m' = staticCache externalFrame.
Proof.
  assert (Hrun : decorateRect (Some 0%nat) (Some 1%nat) rc20 N_FILTHY []
                   externalFrame env3
                 = Some ((rc20, set_worker (mkWorker true (10, 0)) externalFrame),
                         mkEnv [painted;
                                mkPointDevice 1 0
                                  [(mkQPoint 12 3, 7%nat); (mkQPoint 15 1, 9%nat)];
                                blank] []))
    by reflexivity.
  destruct (decorateRect_external_frame_leaves_cache (Some 0%nat) (Some 1%nat) rc20
              N_FILTHY [] externalFrame shift env3 _ _ _
              eq_refl (or_intror eq_refl) Hrun) as (Htrace & Hcache & _).
  do 3 eexists. split; [exact Hrun|]. split; [exact Htrace | exact Hcache].
Defined.

Lemma decorateRect_filthy_invalidates_witness :
  exists m',
    decorateRect (Some 0%nat) (Some 1%nat) rc20 N_ABOVE_FILTHY [] served env3
    = Some ((rc20, m'), env3_rendered) /\
    staticCache m' = allocated.
Proof.
  destruct (decorateRect_filthy_invalidates (PD := pointDevices) (TI := translations) (PI := translationParams)
              0 1 painted blank rc20 N_ABOVE_FILTHY []
              served shift env3 eq_refl eq_refl eq_refl eq_refl eq_refl
              (or_intror eq_refl) eq_refl eq_refl eq_refl eq_refl)
    as (m' & Hrun & Hcache).
  exists m'. split; [exact Hrun | exact Hcache].
Defined.

Lemma decorateRect_fetches_valid_cache_witness :
  decorateRect None (Some 1%nat) rc20 N_BELOW_FILTHY [] served env_cached
  = Some ((rc20, served), env_fetched).
Proof.
  apply (decorateRect_fetches_valid_cache (PD := pointDevices) (TI := translations) (PI := translationParams)
           1 2 painted blank None rc20 N_BELOW_FILTHY []
           served shift env_cached);
    try reflexivity.
  right. left. reflexivity.
Defined.

Lemma lazyAllocateStaticCache_keeps_devices_witness :
  exists s' e',
    lazyAllocateStaticCache 1%nat 0%nat StaticCache.initial env0 = Some (s', e') /\
    heap e' !! 0%nat = Some painted /\ staticCacheDevice s' = Some 1%nat.
Proof.
  assert (Hrun : lazyAllocateStaticCache 1%nat 0%nat StaticCache.initial env0
                 = Some (mkStaticCacheStorage false false (Some 1%nat) None,
                         env_allocated))
    by reflexivity.
  destruct (lazyAllocateStaticCache_keeps_devices (PD := pointDevices) (TI := translations) (PI := translationParams)
              1%nat 0%nat StaticCache.initial
              env0 _ _ Hrun) as (_ & _ & _ & _ & Hkeep & _).
  do 2 eexists. split; [exact Hrun|].
  split; [apply Hkeep; reflexivity | reflexivity].
Defined.

Lemma lazyAllocateStaticCache_idempotent_witness :
  lazyAllocateStaticCache 1%nat 0%nat
    (mkStaticCacheStorage false false (Some 1%nat) None) env_allocated
  = Some (mkStaticCacheStorage false false (Some 1%nat) None, env_allocated).
Proof.
  apply (lazyAllocateStaticCache_idempotent (PD := pointDevices) (TI := translations) (PI := translationParams)
           1%nat 0%nat StaticCache.initial env0);
    reflexivity.
Defined.

Lemma overrideStaticCacheDevice_with_own_device_witness :
  overrideStaticCacheDevice (Some 2%nat) allocated env_cached
  = Some (mkStaticCacheStorage true true (Some 2%nat) None, env3).
Proof.
  apply (overrideStaticCacheDevice_with_own_device
           (PD := pointDevices) (TI := translations) (PI := translationParams)
           allocated env_cached 2 painted);
    reflexivity.
Defined.

Lemma extent_of_mask_covers_projection_witness :
  extent_of_mask (QRect_xywh 70 0 4 4) view0 unlocked = Some (mkQRect 0 0 83 63) /\
  covers (mkQRect 0 0 83 63) (QRect_xywh 0 0 64 64).
Proof.
  split; [reflexivity|].
  apply (proj2 (extent_of_mask_covers_projection (QRect_xywh 70 0 4 4) view0 unlocked)
           unlockedParent (mkQRect 0 0 83 63));
    [reflexivity | reflexivity | | reflexivity].
  unfold int_sized, UpdateProxy.INT_MAX. cbn. lia.
Defined.

Lemma nested_postponement_coalesces_witness :
  snd (UpdateProxy.calls
         (replicate 2 UpdateProxy.CallPostpone
          ++ [UpdateProxy.CallNotify; UpdateProxy.CallTimeout]
          ++ replicate 2 UpdateProxy.CallUnpostpone)
         UpdateProxy.initial)
  = triple.
Proof.
  assert (Hj : (1 <= 2 <= 2)%nat) by lia.
  assert (Hk : Z.of_nat 2 <= UpdateProxy.INT_MAX)
    by (unfold UpdateProxy.INT_MAX; lia).
  assert (Hcs : Forall held_back [UpdateProxy.CallNotify; UpdateProxy.CallTimeout]).
  { constructor; [left; reflexivity|]. constructor; [right; reflexivity|].
    constructor. }
  exact (proj1 (nested_postponement_coalesces 2 2
                  [UpdateProxy.CallNotify; UpdateProxy.CallTimeout]
                  Hj Hk ltac:(discriminate) Hcs Hk)).
Defined.

Lemma sigSettingsChanged_only_from_unpostpone_or_timeout_witness :
  ~ In UpdateProxy.sigSettingsChanged
      (snd (UpdateProxy.calls
              [UpdateProxy.CallNotify; UpdateProxy.CallPostpone;
               UpdateProxy.CallNotify; UpdateProxy.CallNotifyUniform]
              UpdateProxy.initial)).
Proof.
  apply sigSettingsChanged_only_from_unpostpone_or_timeout.
  repeat (constructor; [split; discriminate|]). constructor.
Defined.

Lemma unmatched_unpostpone_swallows_witness :
  UpdateProxy.calls
    ([UpdateProxy.CallUnpostpone] ++ replicate 3 UpdateProxy.CallNotify
     ++ [UpdateProxy.CallPostpone])
    UpdateProxy.initial
  = (UpdateProxy.mkPrivate 0 3, []).
Proof.
  assert (Hn : (1 <= 3)%nat) by lia.
  assert (Hmax : Z.of_nat 3 <= UpdateProxy.INT_MAX)
    by (unfold UpdateProxy.INT_MAX; lia).
  exact (proj1 (unmatched_unpostpone_swallows 3 Hn Hmax)).
Defined.

End MoreExamples.
